(** * AI provider orchestrator: session lifecycle over heterogeneous transports

    A shallow embedding of [ai_provider_orchestrator.py] (provider classes,
    [AISession], [AIProviderOrchestrator]) and of the [/api/compare] handler
    of [web_interface.py], with the properties of the session lifecycle.

    Conventions of the embedding:
    - Python exceptions are values of [exn]; a computation is a function
      from the program state to a result ([Ok] or [Raise]) and the state
      reached, so whatever was mutated before a raise stays mutated.
    - What the operating system, the network and the clock answer is not
      computed: every operation takes the answers it receives as an argument
      (a probe result, a spawn result, an HTTP reply, ...).
    - [time.time()] is a float; only the order of readings matters here and
      a reading is an integer number of clock units.  The clock never runs
      backwards: every reading and every wait moves it by a non-negative
      amount chosen by the environment.
    - [conversation_history] is a Python list object; sessions hold its
      address in a store of lists, so that a copy and an alias differ.
    - Logging calls are left out: they change nothing that is modelled. *)

From stdpp Require Import gmap strings list fin_maps pretty.
From Stdlib Require Import ZArith QArith_base Ascii.

Local Open Scope Z_scope.
Local Open Scope list_scope.

(** ** Data model *)

Inductive ProviderType :=
  | GEMINI_CLI | QWEN_CODE | OLLAMA | GITHUB_COPILOT | OPENAI_COMPATIBLE | CUSTOM.

Inductive SessionStatus :=
  | INACTIVE | STARTING | ACTIVE | ERROR | TERMINATING.

#[global] Instance SessionStatus_eq_dec : EqDecision SessionStatus.
Proof. solve_decision. Defined.

#[global] Instance ProviderType_eq_dec : EqDecision ProviderType.
Proof. solve_decision. Defined.

(** The [value] of a [ProviderType] member. *)
Definition ProviderType_value (t : ProviderType) : string :=
  match t with
  | GEMINI_CLI => "gemini-cli"
  | QWEN_CODE => "qwen-code"
  | OLLAMA => "ollama"
  | GITHUB_COPILOT => "github-copilot"
  | OPENAI_COMPATIBLE => "openai-compatible"
  | CUSTOM => "custom"
  end.

(** The dataclass [ProviderConfig].  It has no [__post_init__]: building a
    value runs no check, so the constructor of the record is the whole of
    its construction.  [ProviderConfig_new] gives the optional fields their
    defaults. *)
Record ProviderConfig := mkProviderConfig {
  name : string;
  provider_type : ProviderType;
  command : option string;
  api_endpoint : option string;
  api_key : option string;
  model : option string;
  max_tokens : option Z;
  temperature : option Q;
  timeout : Z;
  env_vars : gmap string string;
  additional_args : list string
}.

Definition ProviderConfig_new (n : string) (t : ProviderType) : ProviderConfig :=
  {| name := n; provider_type := t; command := None; api_endpoint := None;
     api_key := None; model := None; max_tokens := None; temperature := None;
     timeout := 30; env_vars := ∅; additional_args := [] |}.

(** One turn of a conversation: the dict with keys role, content, timestamp. *)
Record entry := mkEntry {
  role : string;
  content : string;
  timestamp : Z
}.

(** Address of a Python list object. *)
Definition loc := positive.

(** Handle of a spawned child process ([subprocess.Popen]). *)
Record Popen := mkPopen { pid : positive }.

Record AISession := mkAISession {
  session_id : string;
  provider_config : ProviderConfig;
  status : SessionStatus;
  process : option Popen;
  created_at : Z;
  last_activity : Z;
  conversation_history : loc
}.

Definition set_status (st : SessionStatus) (s : AISession) : AISession :=
  {| session_id := session_id s; provider_config := provider_config s;
     status := st; process := process s; created_at := created_at s;
     last_activity := last_activity s;
     conversation_history := conversation_history s |}.

Definition set_process (p : option Popen) (s : AISession) : AISession :=
  {| session_id := session_id s; provider_config := provider_config s;
     status := status s; process := p; created_at := created_at s;
     last_activity := last_activity s;
     conversation_history := conversation_history s |}.

Definition set_last_activity (t : Z) (s : AISession) : AISession :=
  {| session_id := session_id s; provider_config := provider_config s;
     status := status s; process := process s; created_at := created_at s;
     last_activity := t;
     conversation_history := conversation_history s |}.

(** The four provider classes; [AIProvider] is an instance of one of them
    holding its configuration. *)
Inductive ProviderClass :=
  | GeminiCLIProvider | OllamaProvider | GitHubCopilotProvider
  | OpenAICompatibleProvider.

Record AIProvider := mkAIProvider {
  cls : ProviderClass;
  config : ProviderConfig
}.

(** ** Exceptions and results *)

Inductive exn_kind :=
  | ValueError | RuntimeError | TimeoutError | AsyncioTimeoutError
  | TypeError | KeyError | OtherError.

#[global] Instance exn_kind_eq_dec : EqDecision exn_kind.
Proof. solve_decision. Defined.

(** An exception: its class and [str(e)]. *)
Record exn := Exn { kind : exn_kind; str : string }.

Inductive res (A : Type) :=
  | Ok (a : A)
  | Raise (e : exn).
Arguments Ok {A} a.
Arguments Raise {A} e.

(** The error names of the specification, as the exceptions the code raises. *)
Definition UnknownProvider (n : string) : exn :=
  Exn ValueError ("Provider not found: " +:+ n).
Definition ProviderUnavailable (n : string) : exn :=
  Exn RuntimeError ("Provider not available: " +:+ n).
Definition UnknownSession (sid : string) : exn :=
  Exn ValueError ("Session not found: " +:+ sid).
Definition SessionNotActive : exn :=
  Exn RuntimeError "Session is not active".
Definition Timeout : exn :=
  Exn TimeoutError "AI response timeout".


(** ** Program state *)

(** The orchestrator object ([providers], [sessions]), the store of list
    objects and the clock. *)
Record State := mkState {
  providers : gmap string AIProvider;
  sessions : gmap string AISession;
  lists : gmap loc (list entry);
  now : Z;
  tick : nat;
  drift : nat -> N
}.

(** A computation over a mutable state [S] that returns or raises. *)
Definition M (S A : Type) : Type := S -> res A * S.

#[global] Instance M_ret {S} : MRet (M S) := fun A a st => (Ok a, st).

Definition raise {S A} (e : exn) : M S A := fun st => (Raise e, st).

(** Sequencing: an exception of the first computation skips the second and
    keeps the state it was raised in. *)
#[global] Instance M_bind {S} : MBind (M S) := fun A B k m st =>
  match m st with
  | (Ok a, st') => k a st'
  | (Raise e, st') => (Raise e, st')
  end.

(** [try: m except Exception as e: h e] *)
Definition try_except {S A} (m : M S A) (h : exn -> M S A) : M S A :=
  fun st =>
    match m st with
    | (Ok a, st') => (Ok a, st')
    | (Raise e, st') => h e st'
    end.

(** An answer of the environment that is a value or an exception. *)
Definition lift {S A} (r : res A) : M S A :=
  match r with
  | Ok a => mret a
  | Raise e => raise e
  end.

(** A method of a provider runs on a session object it may mutate in place:
    its state is that session together with the program state. *)
Definition P (A : Type) : Type := M (AISession * State) A.

Definition get_session : P AISession := fun '(s, st) => (Ok s, (s, st)).

Definition modify_session (f : AISession -> AISession) : P unit :=
  fun '(s, st) => (Ok tt, (f s, st)).

Definition on_state {A} (m : M State A) : P A :=
  fun '(s, st) => let '(r, st') := m st in (r, (s, st')).

(** *** The clock *)

Definition advance (st : State) : State :=
  {| providers := providers st; sessions := sessions st; lists := lists st;
     now := now st + Z.of_N (drift st (tick st));
     tick := S (tick st); drift := drift st |}.

(** [time.time()] *)
Definition time_time : M State Z := fun st => (Ok (now st), advance st).

(** Any operation that waits on the outside world: time passes. *)
Definition io_wait : M State unit := fun st => (Ok tt, advance st).

(** *** The store of list objects *)

Definition set_lists (h : gmap loc (list entry)) (st : State) : State :=
  {| providers := providers st; sessions := sessions st; lists := h;
     now := now st; tick := tick st; drift := drift st |}.

Definition set_sessions (m : gmap string AISession) (st : State) : State :=
  {| providers := providers st; sessions := m; lists := lists st;
     now := now st; tick := tick st; drift := drift st |}.

(** A new list object holding [l]. *)
Definition list_new (l : list entry) : M State loc :=
  fun st =>
    let a := fresh (dom (lists st)) in
    (Ok a, set_lists (<[a := l]> (lists st)) st).

(** The contents of the list at [a]; every address handed out by
    [list_new] stays allocated, an unallocated one reads as empty. *)
Definition list_read (a : loc) (st : State) : list entry :=
  default [] (lists st !! a).

(** [l.append(x)] *)
Definition list_append (a : loc) (x : entry) : M State unit :=
  fun st => (Ok tt, set_lists (<[a := list_read a st ++ [x]]> (lists st)) st).

(** [l.pop()]: removes the last element, [IndexError] on an empty list. *)
Definition list_pop (a : loc) : M State entry :=
  fun st =>
    match reverse (list_read a st) with
    | [] => (Raise (Exn OtherError "pop from empty list"), st)
    | x :: r => (Ok x, set_lists (<[a := reverse r]> (lists st)) st)
    end.

(** [l.copy()]: a new list object with the same elements. *)
Definition list_copy (a : loc) : M State loc :=
  fun st => list_new (list_read a st) st.

(** The conversation log of a session, read through the store. *)
Definition history (s : AISession) (st : State) : list entry :=
  list_read (conversation_history s) st.

(** ** What the environment answers *)

(** Python truthiness of an optional string: [None] and the empty string
    are false. *)
Definition truthy (o : option string) : bool :=
  match o with
  | Some s => bool_decide (s ≠ "")
  | None => false
  end.

(** [str.isspace] on the characters below 128. *)
Definition isspace (a : ascii) : bool :=
  let n := N_of_ascii a in
  ((9 <=? n) && (n <=? 13) || (28 <=? n) && (n <=? 32))%N.

Fixpoint lstrip (s : string) : string :=
  match s with
  | String a s' => if isspace a then lstrip s' else s
  | EmptyString => EmptyString
  end.

(** [str.strip()] *)
Definition strip (s : string) : string :=
  String.rev (lstrip (String.rev (lstrip s))).

(** The exit code of [subprocess.run(..., timeout=5)] or the status code of
    [requests.get(..., timeout=5)], unless the call raised. *)
Inductive probe :=
  | ProbeCode (code : Z)
  | ProbeRaise.

(** [subprocess.Popen(cmd, ...)]: an argument that is [None] is a
    [TypeError] before anything is spawned; otherwise the system answers. *)
Definition popen (cmd : list (option string)) (spawned : res Popen) : res Popen :=
  if forallb (fun a => bool_decide (is_Some a)) cmd then spawned
  else Raise (Exn TypeError "expected str, bytes or os.PathLike object, not NoneType").

(** [subprocess.run(cmd, capture_output=True, timeout=5)] *)
Definition subprocess_run (cmd : list (option string)) (pr : probe) : probe :=
  if forallb (fun a => bool_decide (is_Some a)) cmd then pr else ProbeRaise.

(** One line-oriented round trip with a child process: what writing the
    line to its stdin does, after how many seconds [readline] returns, and
    what it returns. *)
Record cli_round := mkCliRound {
  write_result : res unit;
  read_latency : Z;
  read_result : res string
}.

(** [asyncio.wait_for(aw, timeout)]: the awaitable is cancelled and
    [asyncio.TimeoutError] raised when it has not finished after [timeout]
    seconds; a timeout that is not positive leaves it no time at all. *)
Definition wait_for {A} (latency : Z) (aw : P A) (tmo : Z) : P A :=
  if (tmo <=? 0) || (tmo <? latency)
  then on_state io_wait;; raise (Exn AsyncioTimeoutError "")
  else aw.

(** One HTTP request: after how many seconds the reply is complete, and the
    reply.  [reply_text] is the field of the JSON body the provider reads:
    absent ([Ok None]), present, or the body cannot be read that far. *)
Record http_reply := mkHttpReply {
  reply_status : Z;
  reply_text : res (option string);
  reply_raw : res string
}.

Record http_round := mkHttpRound {
  http_latency : Z;
  http_result : res http_reply
}.

(** [aiohttp.ClientTimeout(total=t)] around a request: a total that is not
    positive sets no deadline. *)
Definition client_timeout {A} (latency : Z) (aw : P A) (total : Z) : P A :=
  if (0 <? total) && (total <? latency)
  then on_state io_wait;; raise (Exn AsyncioTimeoutError "")
  else aw.

(** The body of [GET /api/tags]: [data.get("models", [])] and the [name] of
    each of its members ([None] where a member has no such key). *)
Inductive tags_body :=
  | TagsUnreadable
  | TagsObject (models : option (list (option string))).

(** A [GET] that raised (refused, timed out after 5 s, ...) or was answered. *)
Inductive http_get (B : Type) :=
  | GetRaise
  | GetStatus (st : Z) (body : B).
Arguments GetRaise {B}.
Arguments GetStatus {B} st body.

(** Releasing a child process: [terminate()], [poll()] after the sleep
    ([true] when the process has exited), [kill()]. *)
Record release := mkRelease {
  terminate_result : res unit;
  poll_exited : res bool;
  kill_result : res unit
}.

(** Everything the environment answers while a session is started: the
    identifier drawn by [uuid.uuid4()], the result of spawning the child
    process, the reply to [GET /api/tags], the reply to [GET /models]. *)
Record start_env := mkStartEnv {
  uuid4 : string;
  spawned : res Popen;
  tags : http_get tags_body;
  models_get : http_get unit
}.

(** Everything the environment answers while one message is sent. *)
Record send_env := mkSendEnv {
  cli : cli_round;
  http : http_round
}.

(** ** The session record *)

(** [AISession(session_id=.., provider_config=.., status=..)]: the default
    factories read the clock twice and build a new, empty list. *)
Definition AISession_new (sid : string) (cfg : ProviderConfig)
    (st0 : SessionStatus) : M State AISession :=
  t1 ← time_time;
  t2 ← time_time;
  l ← list_new [];
  mret {| session_id := sid; provider_config := cfg; status := st0;
          process := None; created_at := t1; last_activity := t2;
          conversation_history := l |}.

(** The tail shared by every successful [send_message]: refresh
    [last_activity], append the user turn, append the assistant turn. *)
Definition record_exchange (message response : string) : P unit :=
  t ← on_state time_time;
  modify_session (set_last_activity t);;
  session ← get_session;
  t ← on_state time_time;
  on_state (list_append (conversation_history session)
              (mkEntry "user" message t));;
  t ← on_state time_time;
  on_state (list_append (conversation_history session)
              (mkEntry "assistant" response t)).

(** ** Subprocess providers: Gemini CLI and GitHub Copilot *)

Module CLI.

(** [start_session] of both classes, given the command line each builds:
    a failed spawn is caught, and the session is returned all the same,
    in status [ERROR]. *)
Definition start_session (cfg : ProviderConfig) (cmd : list (option string))
    (env : start_env) : M State AISession :=
  session ← AISession_new (uuid4 env) cfg STARTING;
  io_wait;;
  match popen cmd (spawned env) with
  | Ok p => mret (set_status ACTIVE (set_process (Some p) session))
  | Raise _ => mret (set_status ERROR session)
  end.

(** [_read_output]: one line of the child's stdout, stripped. *)
Definition _read_output (io : cli_round) : P string :=
  on_state io_wait;;
  line ← lift (read_result io);
  mret (strip line).

Definition send_message (cfg : ProviderConfig) (message : string)
    (io : cli_round) : P string :=
  session ← get_session;
  if negb (bool_decide (is_Some (process session)))
     || negb (bool_decide (status session = ACTIVE))
  then raise SessionNotActive
  else
    try_except
      (lift (write_result io);;
       response ← wait_for (read_latency io) (_read_output io) (timeout cfg);
       record_exchange message response;;
       mret response)
      (fun e =>
         if bool_decide (kind e = AsyncioTimeoutError)
         then raise Timeout
         else raise e).

Definition stop_session (rel : release) : P bool :=
  session ← get_session;
  if bool_decide (is_Some (process session)) then
    try_except
      (lift (terminate_result rel);;
       on_state io_wait;;
       exited ← lift (poll_exited rel);
       (if exited : bool then mret tt else lift (kill_result rel));;
       modify_session (set_status INACTIVE);;
       mret true)
      (fun _ => mret false)
  else mret false.

Definition is_available (cmd : list (option string)) (pr : probe) : bool :=
  match subprocess_run cmd pr with
  | ProbeCode c => bool_decide (c = 0)
  | ProbeRaise => false
  end.

End CLI.

Module GeminiCLI.

Definition cmd (cfg : ProviderConfig) : list (option string) :=
  command cfg :: (Some <$> additional_args cfg).

Definition start_session (cfg : ProviderConfig) := CLI.start_session cfg (cmd cfg).
Definition send_message := CLI.send_message.
Definition stop_session := CLI.stop_session.
Definition is_available (cfg : ProviderConfig) :=
  CLI.is_available [command cfg; Some "--version"].

End GeminiCLI.

Module GitHubCopilot.

Definition cmd (cfg : ProviderConfig) : list (option string) :=
  Some "copilot" :: Some "explain" :: (Some <$> additional_args cfg).

Definition start_session (cfg : ProviderConfig) := CLI.start_session cfg (cmd cfg).
Definition send_message := CLI.send_message.
Definition stop_session := CLI.stop_session.
Definition is_available (cfg : ProviderConfig) :=
  CLI.is_available [Some "copilot"; Some "--version"].

End GitHubCopilot.

(** ** HTTP providers: Ollama and OpenAI-compatible *)

Module HTTP.

(** The request of [send_message] of both classes; [field] turns the
    field read from a 200 body into the reply text. *)
Definition send_message (cfg : ProviderConfig) (message : string)
    (field : option string -> res string) (io : http_round) : P string :=
  if negb (truthy (api_endpoint cfg))
  then raise (Exn RuntimeError "API endpoint not configured")
  else
    try_except
      (reply ← client_timeout (http_latency io)
                 (on_state io_wait;; lift (http_result io)) (timeout cfg);
       if bool_decide (reply_status reply = 200) then
         result ← lift (reply_text reply);
         response_text ← lift (field result);
         record_exchange message response_text;;
         mret response_text
       else
         text ← lift (reply_raw reply);
         raise (Exn RuntimeError
                  ("HTTP " +:+ pretty (reply_status reply) +:+ ": " +:+ text)))
      (fun e => raise e).

(** No resource to release. *)
Definition stop_session : P bool :=
  modify_session (set_status INACTIVE);;
  mret true.

Definition is_available (cfg : ProviderConfig) (pr : probe) : bool :=
  if truthy (api_endpoint cfg) then
    match pr with
    | ProbeCode c => bool_decide (c = 200)
    | ProbeRaise => false
    end
  else false.

End HTTP.

Module Ollama.

(** The names listed by the daemon, or [None] when a member of the list
    has no name (a [KeyError], swallowed by the caller). *)
Definition catalog_names (b : tags_body) : option (list string) :=
  match b with
  | TagsUnreadable => None
  | TagsObject models => mapM id (default [] models)
  end.

Definition _check_model (cfg : ProviderConfig) (g : http_get tags_body) : M State bool :=
  if negb (truthy (api_endpoint cfg)) || negb (truthy (model cfg))
  then mret false
  else
    io_wait;;
    match g with
    | GetStatus st body =>
        if bool_decide (st = 200) then
          match catalog_names body, model cfg with
          | Some models, Some m => mret (bool_decide (m ∈ models))
          | _, _ => mret false
          end
        else mret false
    | GetRaise => mret false
    end.

Definition start_session (cfg : ProviderConfig) (env : start_env) : M State AISession :=
  session ← AISession_new (uuid4 env) cfg ACTIVE;
  ok ← _check_model cfg (tags env);
  if negb ok then
    raise (Exn RuntimeError
             ("Model " +:+ default "None" (model cfg) +:+ " not available"))
  else mret session.

(** [result.get("response", "")] *)
Definition field (o : option string) : res string := Ok (default "" o).

Definition send_message (cfg : ProviderConfig) (message : string)
    (io : http_round) : P string :=
  HTTP.send_message cfg message field io.

Definition stop_session := HTTP.stop_session.
Definition is_available := HTTP.is_available.

End Ollama.

Module OpenAICompatible.

Definition _check_connectivity (cfg : ProviderConfig) (g : http_get unit) : M State bool :=
  if negb (truthy (api_endpoint cfg)) then mret false
  else
    io_wait;;
    match g with
    | GetStatus st _ => mret (bool_decide (st = 200))
    | GetRaise => mret false
    end.

Definition start_session (cfg : ProviderConfig) (env : start_env) : M State AISession :=
  session ← AISession_new (uuid4 env) cfg ACTIVE;
  ok ← _check_connectivity cfg (models_get env);
  if negb ok then raise (Exn RuntimeError "API endpoint not reachable")
  else mret session.

(** [result["choices"][0]["message"]["content"]] *)
Definition field (o : option string) : res string :=
  match o with
  | Some s => Ok s
  | None => Raise (Exn KeyError "'choices'")
  end.

Definition send_message (cfg : ProviderConfig) (message : string)
    (io : http_round) : P string :=
  HTTP.send_message cfg message field io.

Definition stop_session := HTTP.stop_session.
Definition is_available := HTTP.is_available.

End OpenAICompatible.

(** ** Dispatch on the provider class *)

Definition ProviderType_str (t : ProviderType) : string :=
  "ProviderType." +:+
  match t with
  | GEMINI_CLI => "GEMINI_CLI"
  | QWEN_CODE => "QWEN_CODE"
  | OLLAMA => "OLLAMA"
  | GITHUB_COPILOT => "GITHUB_COPILOT"
  | OPENAI_COMPATIBLE => "OPENAI_COMPATIBLE"
  | CUSTOM => "CUSTOM"
  end.

(** [provider_map.get(config.provider_type)] and the instantiation. *)
Definition _create_provider (config : ProviderConfig) : res AIProvider :=
  match provider_type config with
  | GEMINI_CLI => Ok (mkAIProvider GeminiCLIProvider config)
  | OLLAMA => Ok (mkAIProvider OllamaProvider config)
  | GITHUB_COPILOT => Ok (mkAIProvider GitHubCopilotProvider config)
  | OPENAI_COMPATIBLE => Ok (mkAIProvider OpenAICompatibleProvider config)
  | (QWEN_CODE | CUSTOM) as t =>
      Raise (Exn ValueError ("Unsupported provider type: " +:+ ProviderType_str t))
  end.

Definition is_cli (c : ProviderClass) : bool :=
  match c with
  | GeminiCLIProvider | GitHubCopilotProvider => true
  | OllamaProvider | OpenAICompatibleProvider => false
  end.

Definition provider_is_available (p : AIProvider) (pr : probe) : bool :=
  match cls p with
  | GeminiCLIProvider => GeminiCLI.is_available (config p) pr
  | GitHubCopilotProvider => GitHubCopilot.is_available (config p) pr
  | OllamaProvider => Ollama.is_available (config p) pr
  | OpenAICompatibleProvider => OpenAICompatible.is_available (config p) pr
  end.

Definition provider_start_session (p : AIProvider) (env : start_env) : M State AISession :=
  match cls p with
  | GeminiCLIProvider => GeminiCLI.start_session (config p) env
  | GitHubCopilotProvider => GitHubCopilot.start_session (config p) env
  | OllamaProvider => Ollama.start_session (config p) env
  | OpenAICompatibleProvider => OpenAICompatible.start_session (config p) env
  end.

Definition provider_send_message (p : AIProvider) (message : string)
    (env : send_env) : P string :=
  match cls p with
  | GeminiCLIProvider => GeminiCLI.send_message (config p) message (cli env)
  | GitHubCopilotProvider => GitHubCopilot.send_message (config p) message (cli env)
  | OllamaProvider => Ollama.send_message (config p) message (http env)
  | OpenAICompatibleProvider => OpenAICompatible.send_message (config p) message (http env)
  end.

Definition provider_stop_session (p : AIProvider) (rel : release) : P bool :=
  match cls p with
  | GeminiCLIProvider => GeminiCLI.stop_session rel
  | GitHubCopilotProvider => GitHubCopilot.stop_session rel
  | OllamaProvider => Ollama.stop_session
  | OpenAICompatibleProvider => OpenAICompatible.stop_session
  end.

(** ** The orchestrator *)

Module Orchestrator.

Definition get_provider (n : string) : M State (option AIProvider) :=
  fun st => (Ok (providers st !! n), st).

Definition get_session (sid : string) : M State (option AISession) :=
  fun st => (Ok (sessions st !! sid), st).

(** [self.sessions[sid] = session] *)
Definition register (sid : string) (session : AISession) : M State unit :=
  fun st => (Ok tt, set_sessions (<[sid := session]> (sessions st)) st).

(** [del self.sessions[sid]] *)
Definition unregister (sid : string) : M State unit :=
  fun st => (Ok tt, set_sessions (delete sid (sessions st)) st).

(** Run a method of a provider on the session registered under [sid]:
    the registry holds the very object the method mutates, so whatever
    the method did to it, returning or raising, shows in the registry. *)
Definition on_registered {A} (sid : string) (session : AISession)
    (m : P A) : M State A :=
  fun st =>
    let '(r, (session', st')) := m (session, st) in
    (r, set_sessions (<[sid := session']> (sessions st')) st').

Definition start_session (provider_name : string) (pr : probe)
    (env : start_env) : M State string :=
  provider ← get_provider provider_name;
  match provider with
  | None => raise (UnknownProvider provider_name)
  | Some provider =>
      if negb (provider_is_available provider pr)
      then raise (ProviderUnavailable provider_name)
      else
        session ← provider_start_session provider env;
        register (session_id session) session;;
        mret (session_id session)
  end.

Definition send_message (sid : string) (message : string)
    (env : send_env) : M State string :=
  session ← get_session sid;
  match session with
  | None => raise (UnknownSession sid)
  | Some session =>
      provider ← get_provider (name (provider_config session));
      match provider with
      | None => raise (UnknownProvider (name (provider_config session)))
      | Some provider =>
          on_registered sid session (provider_send_message provider message env)
      end
  end.

Definition stop_session (sid : string) (rel : release) : M State bool :=
  session ← get_session sid;
  match session with
  | None => mret false
  | Some session =>
      provider ← get_provider (name (provider_config session));
      match provider with
      | Some provider =>
          success ← on_registered sid session (provider_stop_session provider rel);
          (if success : bool then unregister sid else mret tt);;
          mret success
      | None => mret false
      end
  end.

(** Returns the address of a new list: [conversation_history.copy()]. *)
Definition get_session_history (sid : string) : M State loc :=
  session ← get_session sid;
  match session with
  | None => raise (UnknownSession sid)
  | Some session => list_copy (conversation_history session)
  end.

End Orchestrator.

(** ** Comparing providers: the fan-out of [/api/compare] *)

(** What the environment answers to one provider's pipeline. *)
Record pipeline_env := mkPipelineEnv {
  pe_probe : probe;
  pe_start : start_env;
  pe_send : send_env;
  pe_stop : release
}.

Definition error_text (e : exn) : string := "Error: " +:+ str e.

(** The coroutine [get_provider_response], run without interruption. *)
Definition get_provider_response (message provider_name : string)
    (env : pipeline_env) : M State (string * string) :=
  try_except
    (session_id ← Orchestrator.start_session provider_name (pe_probe env) (pe_start env);
     response ← Orchestrator.send_message session_id message (pe_send env);
     Orchestrator.stop_session session_id (pe_stop env);;
     mret (provider_name, response))
    (fun e => mret (provider_name, error_text e)).

(** The same coroutine as the event loop sees it: a task that is resumed
    once per awaited call of the orchestrator.  Each such call is taken as
    one indivisible step; between two steps of a task any other task may
    run. *)
Inductive task :=
  | AtStart
  | AtSend (session_id : string)
  | AtStop (session_id response : string)
  | Done (r : string * string).

Definition task_step (message provider_name : string) (env : pipeline_env)
    (t : task) (st : State) : task * State :=
  match t with
  | AtStart =>
      match Orchestrator.start_session provider_name (pe_probe env) (pe_start env) st with
      | (Ok session_id, st') => (AtSend session_id, st')
      | (Raise e, st') => (Done (provider_name, error_text e), st')
      end
  | AtSend session_id =>
      match Orchestrator.send_message session_id message (pe_send env) st with
      | (Ok response, st') => (AtStop session_id response, st')
      | (Raise e, st') => (Done (provider_name, error_text e), st')
      end
  | AtStop session_id response =>
      match Orchestrator.stop_session session_id (pe_stop env) st with
      | (Ok _, st') => (Done (provider_name, response), st')
      | (Raise e, st') => (Done (provider_name, error_text e), st')
      end
  | Done r => (Done r, st)
  end.

(** One turn of the event loop: task [i] runs up to its next await. *)
Definition turn (message : string) (names : list string)
    (envs : nat -> pipeline_env) (i : nat) (ts : list task) (st : State)
    : list task * State :=
  match names !! i, ts !! i with
  | Some n, Some t =>
      let '(t', st') := task_step message n (envs i) t st in
      (<[i := t']> ts, st')
  | _, _ => (ts, st)
  end.

Fixpoint run (message : string) (names : list string)
    (envs : nat -> pipeline_env) (sched : list nat) (ts : list task)
    (st : State) : list task * State :=
  match sched with
  | [] => (ts, st)
  | i :: sched' =>
      let '(ts', st') := turn message names envs i ts st in
      run message names envs sched' ts' st'
  end.

Definition task_result (t : task) : option (string * string) :=
  match t with
  | Done r => Some r
  | _ => None
  end.

(** [asyncio.gather] over the tasks, driven to completion: the tasks are resumed in
    the order [sched] the event loop happens to pick, then every task that
    is still pending is driven to its end; the results come back in the
    order of the tasks. *)
Definition gather (message : string) (names : list string)
    (envs : nat -> pipeline_env) (sched : list nat) (st : State)
    : list (string * string) * State :=
  let n := length names in
  let '(ts, st') :=
    run message names envs (sched ++ seq 0 n ++ seq 0 n ++ seq 0 n)
      (replicate n AtStart) st in
  (omap task_result ts, st').

(** One slot of the result of a comparison. *)
Record slot := mkSlot {
  slot_response : string;
  slot_timestamp : Z
}.

(** The loop that fills [results] from the gathered pairs. *)
Fixpoint fill (responses : list (string * string)) (results : gmap string slot)
    : M State (gmap string slot) :=
  match responses with
  | [] => mret results
  | (provider_name, response) :: rest =>
      t ← time_time;
      fill rest (<[provider_name := mkSlot response t]> results)
  end.

(** The handler of [POST /api/compare]: status 400 with an error text, or
    the map of slots. *)
Definition compare_providers (message : option string) (names : list string)
    (envs : nat -> pipeline_env) (sched : list nat)
    : M State (string + gmap string slot) :=
  match message, names with
  | Some msg, _ :: _ =>
      if bool_decide (msg = "")
      then mret (inl "Message and providers are required")
      else
        fun st =>
          let '(responses, st') := gather msg names envs sched st in
          (results ← fill responses ∅; mret (inr results)) st'
  | _, _ => mret (inl "Message and providers are required")
  end.

(** ** Mutating a list the caller holds *)

Inductive list_op :=
  | Append (x : entry)
  | Pop.

Definition apply_op (a : loc) (o : list_op) (st : State) : State :=
  match o with
  | Append x => snd (list_append a x st)
  | Pop => snd (list_pop a st)
  end.

Definition apply_ops (a : loc) (ops : list list_op) (st : State) : State :=
  foldl (fun st o => apply_op a o st) st ops.

(** ** Invariant of the program state *)

(** Every registered session is filed under its own identifier and its
    conversation log is an allocated list. *)
Definition wf (st : State) : Prop :=
  ∀ sid s, sessions st !! sid = Some s →
    session_id s = sid ∧ conversation_history s ∈ dom (lists st).

(** ** The default configuration

    The four entries that [_create_default_config] writes to the
    configuration file, as values of [ProviderConfig], and a registry that
    holds a provider of each under its name.  The registry is put together
    by hand, [_create_provider] applied to each configuration: it is the
    concrete state of the examples, not what a run of the loader leaves. *)

Definition gemini_config : ProviderConfig :=
  {| name := "gemini"; provider_type := GEMINI_CLI; command := Some "gemini";
     api_endpoint := None; api_key := None; model := Some "gemini-pro";
     max_tokens := Some 2048; temperature := Some (7 # 10)%Q; timeout := 30;
     env_vars := ∅; additional_args := [] |}.

Definition ollama_config : ProviderConfig :=
  {| name := "ollama"; provider_type := OLLAMA; command := None;
     api_endpoint := Some "http://localhost:11434"; api_key := None;
     model := Some "llama2"; max_tokens := Some 2048;
     temperature := Some (7 # 10)%Q; timeout := 30;
     env_vars := ∅; additional_args := [] |}.

Definition copilot_config : ProviderConfig :=
  {| name := "copilot"; provider_type := GITHUB_COPILOT;
     command := Some "copilot"; api_endpoint := None; api_key := None;
     model := None; max_tokens := Some 2048; temperature := None;
     timeout := 30; env_vars := ∅; additional_args := [] |}.

Definition qwen_config : ProviderConfig :=
  {| name := "qwen"; provider_type := OPENAI_COMPATIBLE; command := None;
     api_endpoint := Some "http://localhost:8000/v1";
     api_key := Some "your-api-key"; model := Some "qwen-coder";
     max_tokens := Some 2048; temperature := Some (7 # 10)%Q; timeout := 30;
     env_vars := ∅; additional_args := [] |}.

Definition default_providers : gmap string AIProvider :=
  <["gemini" := mkAIProvider GeminiCLIProvider gemini_config]>
  (<["ollama" := mkAIProvider OllamaProvider ollama_config]>
  (<["copilot" := mkAIProvider GitHubCopilotProvider copilot_config]>
  (<["qwen" := mkAIProvider OpenAICompatibleProvider qwen_config]> ∅))).

(** An orchestrator with the registry [default_providers] and no session;
    the clock reads 1000 and moves by one unit at every step. *)
Definition fresh_state : State :=
  {| providers := default_providers; sessions := ∅; lists := ∅;
     now := 1000; tick := 0; drift := fun _ => 1%N |}.

(** Answers of a healthy environment: the process spawns, the daemon lists
    llama2, the API is reachable, every round trip takes one second. *)
Definition good_start (uuid : string) : start_env :=
  {| uuid4 := uuid; spawned := Ok (mkPopen 4242);
     tags := GetStatus 200 (TagsObject (Some [Some "mistral"; Some "llama2"]));
     models_get := GetStatus 200 tt |}.

Definition good_send (reply : string) : send_env :=
  {| cli := {| write_result := Ok tt; read_latency := 1;
               read_result := Ok (reply +:+ "
") |};
     http := {| http_latency := 1;
                http_result := Ok {| reply_status := 200;
                                     reply_text := Ok (Some reply);
                                     reply_raw := Ok reply |} |} |}.

Definition good_stop : release :=
  {| terminate_result := Ok tt; poll_exited := Ok true; kill_result := Ok tt |}.

(** The answer that never comes: the round trip would take an hour. *)
Definition silent_send : send_env :=
  {| cli := {| write_result := Ok tt; read_latency := 3600;
               read_result := Ok "" |};
     http := {| http_latency := 3600;
                http_result := Raise (Exn OtherError "connection reset") |} |}.

(** ** Vocabulary of the properties *)

(** *** Sessions and states used as concrete inputs *)

(** A session as a subprocess provider returns it when the spawn failed. *)
Definition error_session : AISession :=
  {| session_id := "00000000-0000-4000-8000-000000000001";
     provider_config := gemini_config; status := ERROR; process := None;
     created_at := 1000; last_activity := 1001; conversation_history := 1%positive |}.

(** A session of the Ollama provider after [stop_session]. *)
Definition stopped_session : AISession :=
  {| session_id := "00000000-0000-4000-8000-000000000002";
     provider_config := ollama_config; status := INACTIVE; process := None;
     created_at := 1000; last_activity := 1001; conversation_history := 1%positive |}.

(** A running session of the Gemini provider. *)
Definition active_session : AISession :=
  {| session_id := "00000000-0000-4000-8000-000000000005";
     provider_config := gemini_config; status := ACTIVE;
     process := Some (mkPopen 4242);
     created_at := 1000; last_activity := 1001;
     conversation_history := 1%positive |}.

(** An orchestrator holding [active_session] after one exchange. *)
Definition chat_state : State :=
  {| providers := default_providers;
     sessions := {[ "00000000-0000-4000-8000-000000000005" := active_session ]};
     lists := {[ 1%positive := [mkEntry "user" "hi" 1002;
                                mkEntry "assistant" "hello" 1003] ]};
     now := 1004; tick := 4; drift := fun _ => 1%N |}.

(** The scenario of the specification: three providers, the probe of the
    second fails; every task draws its own session identifier. *)
Definition scenario_envs (i : nat) : pipeline_env :=
  {| pe_probe := if bool_decide (i = 1%nat) then ProbeRaise
                 else ProbeCode (if bool_decide (i = 0%nat) then 0 else 200);
     pe_start := good_start ("session-" +:+ pretty i);
     pe_send := good_send ("reply " +:+ pretty i);
     pe_stop := good_stop |}.

Definition scenario_names : list string := ["gemini"; "ollama"; "qwen"].

(** *** Starting and stopping *)

(** The daemon answered 200 with a catalog that has an entry named [m]. *)
Definition listed (m : string) (g : http_get tags_body) : Prop :=
  ∃ entries, g = GetStatus 200 (TagsObject (Some entries)) ∧ Some m ∈ entries.

(** Releasing the child process raised: [terminate()] did, or [poll()] did,
    or the process had not exited and [kill()] did. *)
Definition release_fails (rel : release) : bool :=
  match terminate_result rel, poll_exited rel, kill_result rel with
  | Raise _, _, _ => true
  | Ok _, Raise _, _ => true
  | Ok _, Ok false, Raise _ => true
  | _, _, _ => false
  end.

(** The command line a subprocess provider spawns. *)
Definition provider_cmd (p : AIProvider) : list (option string) :=
  match cls p with
  | GeminiCLIProvider => GeminiCLI.cmd (config p)
  | GitHubCopilotProvider => GitHubCopilot.cmd (config p)
  | _ => []
  end.

(** What spawning the child process of [p] gives. *)
Definition spawn_result (p : AIProvider) (env : start_env) : res Popen :=
  popen (provider_cmd p) (spawned env).

(** Every provider is registered under the name of its configuration, as
    [_load_providers] registers them. *)
Definition keyed (provs : gmap string AIProvider) : Prop :=
  ∀ k p, provs !! k = Some p → name (config p) = k.

(** *** Sending *)






(** *** Comparing *)









(** ** Vocabulary of the further properties *)

(** A provider that lacks the field its probe needs: the command of the
    Gemini provider (the Copilot provider spawns a fixed command and never
    reads the field), the endpoint of an HTTP provider. *)
Definition lacks_required_field (p : AIProvider) : Prop :=
  match cls p with
  | GeminiCLIProvider => command (config p) = None
  | GitHubCopilotProvider => False
  | OllamaProvider | OpenAICompatibleProvider =>
      truthy (api_endpoint (config p)) = false
  end.

(** A line made of white space only; the empty line, which is what
    [readline] returns at end of file, is one. *)
Fixpoint blank (s : string) : bool :=
  match s with
  | EmptyString => true
  | String a s' => isspace a && blank s'
  end.

(** ** The rest of the orchestrator's surface

    A Python dict iterates in insertion order, which the maps used here do
    not record: [list_providers], [list_sessions] and [stop_all_sessions]
    go through the entries in the order of the map instead.  What is
    proved of them does not depend on the order. *)

(** The [value] of a [SessionStatus] member. *)
Definition SessionStatus_value (s : SessionStatus) : string :=
  match s with
  | INACTIVE => "inactive"
  | STARTING => "starting"
  | ACTIVE => "active"
  | ERROR => "error"
  | TERMINATING => "terminating"
  end.

(** One record of [list_sessions]. *)
Record session_info := mkSessionInfo {
  info_session_id : string;
  info_provider : string;
  info_status : string;
  info_created_at : Z;
  info_last_activity : Z;
  info_conversation_length : nat
}.

Definition list_providers (st : State) : list string :=
  (map_to_list (providers st)).*1.

Definition list_sessions (st : State) : list session_info :=
  (fun '(sid, session) =>
     {| info_session_id := sid;
        info_provider := name (provider_config session);
        info_status := SessionStatus_value (status session);
        info_created_at := created_at session;
        info_last_activity := last_activity session;
        info_conversation_length := length (history session st) |})
  <$> map_to_list (sessions st).

(** The loop of [stop_all_sessions] over the snapshot of identifiers;
    [rel] is what releasing the process of each session does. *)
Fixpoint stop_each (session_ids : list string) (rel : string -> release)
    (stopped_count : nat) : M State nat :=
  match session_ids with
  | [] => mret stopped_count
  | sid :: rest =>
      ok ← Orchestrator.stop_session sid (rel sid);
      stop_each rest rel (if ok : bool then S stopped_count else stopped_count)
  end.

Definition stop_all_sessions (rel : string -> release) : M State nat :=
  fun st => stop_each (map_to_list (sessions st)).*1 rel 0 st.

(** *** Sequences of calls *)

(** One call of the orchestrator by a client, with what the environment
    answers during it. *)
Inductive call :=
  | StartSession (provider_name : string) (pr : probe) (env : start_env)
  | SendMessage (sid message : string) (env : send_env)
  | StopSession (sid : string) (rel : release)
  | StopAllSessions (rel : string -> release)
  | GetSessionHistory (sid : string).

(** The state a call leaves, whether it returned or raised. *)
Definition after_call (c : call) (st : State) : State :=
  match c with
  | StartSession n pr env => snd (Orchestrator.start_session n pr env st)
  | SendMessage sid m env => snd (Orchestrator.send_message sid m env st)
  | StopSession sid rel => snd (Orchestrator.stop_session sid rel st)
  | StopAllSessions rel => snd (stop_all_sessions rel st)
  | GetSessionHistory sid => snd (Orchestrator.get_session_history sid st)
  end.

Definition after_calls (cs : list call) (st : State) : State :=
  foldl (fun st c => after_call c st) st cs.

(** The statuses a registered session of provider [p] can have. *)
Definition status_ok (p : AIProvider) (s : AISession) : Prop :=
  if is_cli (cls p)
  then (status s = ACTIVE ∧ is_Some (process s)) ∨
       (status s = ERROR ∧ process s = None)
  else status s = ACTIVE ∧ process s = None.

(** The provider of every registered session resolves, and is the one
    whose configuration the session holds. *)
Definition owned (st : State) : Prop :=
  ∀ sid s, sessions st !! sid = Some s →
    ∃ p, providers st !! name (provider_config s) = Some p ∧
         provider_config s = config p ∧ status_ok p s.

(** No two registered sessions share the list object of their log. *)
Definition separate (st : State) : Prop :=
  ∀ sid1 sid2 s1 s2,
    sessions st !! sid1 = Some s1 → sessions st !! sid2 = Some s2 →
    conversation_history s1 = conversation_history s2 → sid1 = sid2.

Definition sound (st : State) : Prop :=
  wf st ∧ keyed (providers st) ∧ owned st ∧ separate st.

(** Several messages sent to one session, one after the other; stops at
    the first that raises. *)
Fixpoint send_each (sid : string) (turns : list (string * send_env))
    : M State (list string) :=
  match turns with
  | [] => mret []
  | (message, env) :: rest =>
      reply ← Orchestrator.send_message sid message env;
      replies ← send_each sid rest;
      mret (reply :: replies)
  end.

(** Role and content of the entries of a log. *)
Definition spoken (l : list entry) : list (string * string) :=
  (fun e => (role e, content e)) <$> l.

(** The turns that messages and their replies make, in order. *)
Fixpoint transcript (messages replies : list string) : list (string * string) :=
  match messages, replies with
  | m :: ms, r :: rs => ("user", m) :: ("assistant", r) :: transcript ms rs
  | _, _ => []
  end.

(** [stop_session] of the orchestrator succeeds on session [s]. *)
Definition stops (st : State) (s : AISession) (rel : release) : bool :=
  match providers st !! name (provider_config s) with
  | Some p =>
      if is_cli (cls p)
      then bool_decide (is_Some (process s)) && negb (release_fails rel)
      else true
  | None => false
  end.

(** * Properties *)

Ltac munfold :=
  unfold mbind, M_bind, mret, M_ret, raise, lift, try_except, on_state,
    get_session, modify_session, io_wait, time_time in *.

(** ** The model catalog of the Ollama daemon *)

Lemma mapM_id_elem (l : list (option string)) (names : list string) (m : string) :
  mapM id l = Some names → m ∈ names ↔ Some m ∈ l.
Proof.
  intros H. apply mapM_Some in H.
  induction H as [|x y l k Hxy HF IH]; simpl in *.
  - split; inversion 1.
  - subst x. rewrite !elem_of_cons, IH.
    split; (intros [?|?]; [left; congruence|by right]).
Qed.

Lemma check_model_true cfg g st st' :
  Ollama._check_model cfg g st = (Ok true, st') →
  truthy (api_endpoint cfg) = true ∧
  ∃ m, model cfg = Some m ∧ m ≠ "" ∧ listed m g.
Proof.
  unfold Ollama._check_model. munfold.
  destruct (truthy (api_endpoint cfg)) eqn:He; simpl; [|intros; simplify_eq].
  destruct (truthy (model cfg)) eqn:Hm; simpl; [|intros; simplify_eq].
  destruct g as [|code body]; [intros; simplify_eq|].
  case_bool_decide; [|intros; simplify_eq]. subst code.
  destruct (Ollama.catalog_names body) as [names|] eqn:Hn;
    [|destruct (model cfg); intros; simplify_eq].
  destruct (model cfg) as [m|] eqn:Hmod; [|intros; simplify_eq].
  intros H. simplify_eq. split; [done|]. exists m. split; [done|].
  simpl in Hm. apply bool_decide_eq_true in Hm. split; [done|].
  match goal with
  | H : bool_decide _ = true |- _ =>
      apply bool_decide_eq_true in H; rename H into Hin
  end.
  destruct body as [|[entries|]]; simpl in Hn; [done| |].
  - exists entries. split; [done|]. by apply (mapM_id_elem _ _ _ Hn).
  - cbv in Hn. simplify_eq. inversion Hin.
Qed.

Lemma check_model_total cfg g st :
  ∃ b st', Ollama._check_model cfg g st = (Ok b, st').
Proof.
  unfold Ollama._check_model. munfold.
  destruct (negb _ || negb _); [eauto|].
  destruct g as [|code body]; [eauto|].
  case_bool_decide; [|eauto].
  destruct (Ollama.catalog_names body), (model cfg); eauto.
Qed.

(** Claim C9.  [OllamaProvider.start_session] returns a session only when
    the endpoint and the model are configured and the daemon's catalog
    lists the model, and the session is then [ACTIVE]; when the endpoint or
    the model is not configured, or the catalog does not list the model, it
    raises ["Model ... not available"] and returns no session. *)
Theorem ollama_start_needs_listed_model (cfg : ProviderConfig) (env : start_env) (st : State) :
  (∀ s st', Ollama.start_session cfg env st = (Ok s, st') →
     status s = ACTIVE ∧ truthy (api_endpoint cfg) = true ∧
     ∃ m, model cfg = Some m ∧ listed m (tags env))
  ∧
  (truthy (api_endpoint cfg) = false ∨ truthy (model cfg) = false ∨
     (∀ m, model cfg = Some m → ¬ listed m (tags env)) →
   ∃ st', Ollama.start_session cfg env st =
     (Raise (Exn RuntimeError
               ("Model " +:+ default "None" (model cfg) +:+ " not available")), st')).
Proof.
  assert (Hstart : ∀ r st', Ollama.start_session cfg env st = (r, st') →
    match r with
    | Ok s => status s = ACTIVE ∧ truthy (api_endpoint cfg) = true ∧
              ∃ m, model cfg = Some m ∧ m ≠ "" ∧ listed m (tags env)
    | Raise e => e = Exn RuntimeError
               ("Model " +:+ default "None" (model cfg) +:+ " not available")
    end).
  { intros r st'. unfold Ollama.start_session, AISession_new, list_new. munfold.
    simpl.
    match goal with
    | |- context [Ollama._check_model cfg (tags env) ?s] =>
        destruct (check_model_total cfg (tags env) s) as (b & st1 & Hb);
        rewrite Hb
    end.
    destruct b; simpl; intros ?; simplify_eq; [|done].
    apply check_model_true in Hb as (? & m & ? & ? & ?). eauto 10. }
  revert Hstart.
  destruct (Ollama.start_session cfg env st) as [[s|e] st1]; intros Hstart;
    specialize (Hstart _ _ eq_refl); simpl in Hstart.
  - destruct Hstart as (Hs & He & m & Hm & Hne & Hl). split.
    + intros ? ? ?. simplify_eq. eauto 10.
    + intros [Hb|[Hb|Hb]]; exfalso.
      * congruence.
      * rewrite Hm in Hb. simpl in Hb. by apply bool_decide_eq_false in Hb.
      * by apply (Hb m).
  - subst e. split; [intros; simplify_eq | eauto].
Qed.

(** The daemon lists only mistral; the default configuration asks for
    llama2. *)
Lemma ollama_start_needs_listed_model_witness :
  ∃ st', Ollama.start_session ollama_config
           {| uuid4 := "u"; spawned := Raise (Exn OtherError "");
              tags := GetStatus 200 (TagsObject (Some [Some "mistral"]));
              models_get := GetRaise |} fresh_state =
         (Raise (Exn RuntimeError "Model llama2 not available"), st').
Proof.
  apply (ollama_start_needs_listed_model ollama_config).
  right; right. intros m Hm (entries & Hg & Hin). simpl in *. simplify_eq.
  apply list_elem_of_singleton in Hin. discriminate.
Defined.

(** ** Stopping a session at the provider *)

(** What [stop_session] of a provider does, for every class, session and
    answer of the process: it always returns.  For the HTTP classes it
    returns true and the session is [INACTIVE].  For the subprocess classes
    it returns true, with the session [INACTIVE], exactly when the session
    holds a process and releasing it raised nothing; otherwise it returns
    false and the session is as it was. *)
Lemma provider_stop_spec (p : AIProvider) (rel : release) (s : AISession) (st : State) :
  ∃ b s' st', provider_stop_session p rel (s, st) = (Ok b, (s', st')) ∧
    providers st' = providers st ∧ sessions st' = sessions st ∧
    lists st' = lists st ∧
    s' = (if b then set_status INACTIVE s else s) ∧
    b = if is_cli (cls p)
        then bool_decide (is_Some (process s)) && negb (release_fails rel)
        else true.
Proof.
  unfold provider_stop_session, release_fails.
  destruct p as [[] cfg]; simpl;
    unfold GeminiCLI.stop_session, GitHubCopilot.stop_session,
      Ollama.stop_session, OpenAICompatible.stop_session,
      CLI.stop_session, HTTP.stop_session; munfold; simpl;
    try (by eauto 10);
    (destruct (process s) as [pr|]; simpl; [|by eauto 10];
     destruct (terminate_result rel) as [[]|]; simpl; [|by eauto 10];
     destruct (poll_exited rel) as [[]|]; simpl; [by eauto 10| |by eauto 10];
     destruct (kill_result rel) as [[]|]; simpl; by eauto 10).
Qed.

(** Claim C8, at the input on which the code departs from it: the session
    holds no process (its spawn failed) and nothing goes wrong while
    releasing, yet [stop_session] of the Gemini provider returns false and
    leaves the session as it was, in status [ERROR], not [INACTIVE]. *)
Theorem stop_without_process_returns_false :
  process error_session = None ∧ release_fails good_stop = false ∧
  GeminiCLI.stop_session good_stop (error_session, fresh_state)
    = (Ok false, (error_session, fresh_state)) ∧
  status error_session ≠ INACTIVE.
Proof. repeat split; done. Qed.

(** ** Building a configuration *)

(** Claim C2, at the input on which the code departs from it: a
    configuration of the subprocess kind with no command (and no endpoint,
    no credential) is built without complaint, and [_create_provider] makes
    a provider of it. *)
Theorem config_without_command_constructs :
  let cfg := ProviderConfig_new "missing-required" GEMINI_CLI in
  command cfg = None ∧ api_endpoint cfg = None ∧ api_key cfg = None ∧
  _create_provider cfg = Ok (mkAIProvider GeminiCLIProvider cfg).
Proof. repeat split. Qed.

(** ** Sending to a session that is not active *)

(** The subprocess providers refuse a session that is not [ACTIVE]. *)
Lemma cli_send_rejects_inactive cfg message io s st :
  status s ≠ ACTIVE →
  CLI.send_message cfg message io (s, st) = (Raise SessionNotActive, (s, st)).
Proof.
  intros Hs. unfold CLI.send_message. munfold.
  rewrite (bool_decide_eq_false_2 _ Hs). simpl. by rewrite orb_true_r.
Qed.

(** The HTTP providers never look at the status of the session. *)
Lemma http_send_ignores_status cfg message field io st0 s st :
  fst (HTTP.send_message cfg message field io (set_status st0 s, st))
  = fst (HTTP.send_message cfg message field io (s, st)).
Proof.
  unfold HTTP.send_message, client_timeout, record_exchange. munfold.
  destruct (negb _); [done|].
  destruct (_ && _); [done|]. simpl.
  destruct (http_result io) as [reply|]; [|done]. simpl.
  case_bool_decide.
  - destruct (reply_text reply) as [o|]; [|done]. simpl.
    destruct (field o); done.
  - destruct (reply_raw reply); done.
Qed.

(** Claim C3, at the input on which the code departs from it: the Ollama
    provider serves a session whose status is [INACTIVE], and appends the
    exchange to its log. *)
Theorem http_send_accepts_inactive_session :
  status stopped_session = INACTIVE ∧
  ∃ s' st',
    provider_send_message (mkAIProvider OllamaProvider ollama_config) "hi"
      (good_send "hello") (stopped_session, fresh_state)
    = (Ok "hello", (s', st')) ∧
    status s' = INACTIVE ∧
    history s' st' = [mkEntry "user" "hi" 1002; mkEntry "assistant" "hello" 1003].
Proof. split; [done|]. do 2 eexists. split; [reflexivity|]. split; reflexivity. Qed.

(** ** Starting a session *)

Lemma new_session_spec sid cfg st0 st :
  ∃ s st', AISession_new sid cfg st0 st = (Ok s, st') ∧
    s = {| session_id := sid; provider_config := cfg; status := st0;
           process := None; created_at := now st;
           last_activity := now (advance st);
           conversation_history := fresh (dom (lists st)) |} ∧
    st' = set_lists (<[fresh (dom (lists st)) := []]> (lists st)) (advance (advance st)).
Proof. unfold AISession_new, list_new. munfold. simpl. eauto. Qed.

Lemma provider_start_spec p env st r st' :
  provider_start_session p env st = (r, st') →
  providers st' = providers st ∧ sessions st' = sessions st ∧
  now st ≤ now st' ∧
  (∀ a, a ∈ dom (lists st) → lists st' !! a = lists st !! a) ∧
  match r with
  | Ok s =>
      session_id s = uuid4 env ∧ provider_config s = config p ∧
      (conversation_history s ∉ dom (lists st)) ∧
      lists st' !! conversation_history s = Some [] ∧
      if is_cli (cls p) then
        match spawn_result p env with
        | Ok pr => status s = ACTIVE ∧ process s = Some pr
        | Raise _ => status s = ERROR ∧ process s = None
        end
      else status s = ACTIVE ∧ process s = None
  | Raise e => is_cli (cls p) = false
  end.
Proof.
  assert (Hfr : fresh (dom (lists st)) ∉ dom (lists st)) by apply is_fresh.
  assert (Hold : ∀ a l, a ∈ dom (lists st) →
            <[fresh (dom (lists st)) := l]> (lists st) !! a = lists st !! a).
  { intros a l Ha. apply lookup_insert_ne. intros <-. by apply Hfr. }
  unfold provider_start_session, spawn_result, provider_cmd.
  destruct p as [[] cfg]; simpl.
  - unfold GeminiCLI.start_session, CLI.start_session,  AISession_new, list_new. munfold. simpl.
    destruct (popen _ _); intros ?; simplify_eq; simpl;
      rewrite lookup_insert_eq; repeat split; auto; lia.
  - unfold Ollama.start_session, AISession_new, list_new. munfold. simpl.
    match goal with
    | |- context [Ollama._check_model ?c ?g ?s] =>
        destruct (check_model_total c g s) as (b & st1 & Hb); rewrite Hb;
        assert (st1 = s ∨ st1 = advance s) as Hst1
    end.
    { revert Hb. unfold Ollama._check_model. munfold.
      destruct (negb _ || negb _); [intros; simplify_eq; auto|].
      destruct (tags env) as [|code body]; [intros; simplify_eq; auto|].
      case_bool_decide; [|intros; simplify_eq; auto].
      destruct (Ollama.catalog_names body), (model cfg); intros; simplify_eq; auto. }
    destruct b; simpl; intros ?; simplify_eq;
      destruct Hst1 as [-> | ->]; simpl;
      rewrite ?lookup_insert_eq; repeat split; auto; lia.
  - unfold GitHubCopilot.start_session, CLI.start_session,  AISession_new, list_new. munfold. simpl.
    destruct (popen _ _); intros ?; simplify_eq; simpl;
      rewrite lookup_insert_eq; repeat split; auto; lia.
  - unfold OpenAICompatible.start_session, OpenAICompatible._check_connectivity, AISession_new, list_new. munfold. simpl.
    destruct (negb (truthy _)); simpl; [intros; simplify_eq; simpl; repeat split; auto; lia|].
    destruct (models_get env) as [|code body]; simpl; [intros; simplify_eq; simpl; repeat split; auto; lia|].
    case_bool_decide; simpl; intros; simplify_eq; simpl;
      rewrite ?lookup_insert_eq; repeat split; auto; lia.
Qed.

Lemma start_session_inv name pr env st r st' :
  Orchestrator.start_session name pr env st = (r, st') →
  match providers st !! name with
  | None => r = Raise (UnknownProvider name) ∧ st' = st
  | Some p =>
      if provider_is_available p pr then
        ∃ r1 st1, provider_start_session p env st = (r1, st1) ∧
          match r1 with
          | Ok s => r = Ok (session_id s) ∧
                    st' = set_sessions (<[session_id s := s]> (sessions st1)) st1
          | Raise e => r = Raise e ∧ st' = st1
          end
      else r = Raise (ProviderUnavailable name) ∧ st' = st
  end.
Proof.
  unfold Orchestrator.start_session, Orchestrator.get_provider,
    Orchestrator.register. munfold.
  destruct (providers st !! name) as [p|]; [|by intros; simplify_eq].
  destruct (provider_is_available p pr); simpl; [|by intros; simplify_eq].
  destruct (provider_start_session p env st) as [[s|e] st1];
    intros ?; simplify_eq; do 2 eexists; (split; [reflexivity|]); by simpl.
Qed.

(** Claim C1 as stated fails: the probe of the Gemini provider succeeds,
    the spawn does not; [start_session] of the orchestrator returns an
    identifier all the same, and the session registered under it is in
    status [ERROR]. *)
Lemma start_session_registers_error_session :
  ∃ sid s st',
    Orchestrator.start_session "gemini" (ProbeCode 0)
      {| uuid4 := "00000000-0000-4000-8000-000000000001";
         spawned := Raise (Exn OtherError "[Errno 11] Resource temporarily unavailable");
         tags := GetRaise; models_get := GetRaise |}
      fresh_state = (Ok sid, st') ∧
    sessions st' !! sid = Some s ∧ status s = ERROR.
Proof. do 3 eexists. split; [reflexivity|]. split; reflexivity. Qed.

(** Claim C1, amended.  The orchestrator raises [UnknownProvider] for a
    name that is not registered and [ProviderUnavailable] when the probe
    fails, leaving the state as it was.  When it returns an identifier, a
    session is registered under it whose status is [ACTIVE], or [ERROR] in
    the one case of a subprocess provider whose spawn failed.  At the
    provider, [start_session] returns a session that is [ACTIVE], or
    returns one in [ERROR] (subprocess classes, failed spawn), or raises
    (HTTP classes only). *)
Theorem start_session_outcomes (name : string) (pr : probe) (env : start_env) (st : State) :
  (providers st !! name = None →
     Orchestrator.start_session name pr env st = (Raise (UnknownProvider name), st))
  ∧ (∀ p, providers st !! name = Some p → provider_is_available p pr = false →
     Orchestrator.start_session name pr env st = (Raise (ProviderUnavailable name), st))
  ∧ (∀ sid st', Orchestrator.start_session name pr env st = (Ok sid, st') →
     ∃ p s, providers st !! name = Some p ∧ provider_is_available p pr = true ∧
       sessions st' !! sid = Some s ∧ session_id s = sid ∧
       match spawn_result p env with
       | Raise _ => if is_cli (cls p) then status s = ERROR else status s = ACTIVE
       | Ok _ => status s = ACTIVE
       end)
  ∧ (∀ p r st', provider_start_session p env st = (r, st') →
       match r with
       | Ok s => status s = ACTIVE ∨
                 (status s = ERROR ∧ is_cli (cls p) = true ∧
                  ∃ e, spawn_result p env = Raise e)
       | Raise e => is_cli (cls p) = false
       end).
Proof.
  split; [|split; [|split]].
  - intros Hn.
    destruct (Orchestrator.start_session name pr env st) as [r st'] eqn:H.
    apply start_session_inv in H. rewrite Hn in H. by destruct H as [-> ->].
  - intros p Hp Ha.
    destruct (Orchestrator.start_session name pr env st) as [r st'] eqn:H.
    apply start_session_inv in H. rewrite Hp, Ha in H. by destruct H as [-> ->].
  - intros sid st' H. apply start_session_inv in H.
    destruct (providers st !! name) as [p|]; [|by destruct H].
    destruct (provider_is_available p pr) eqn:Ha; [|by destruct H].
    destruct H as (r1 & st1 & Hp & H).
    apply provider_start_spec in Hp as (_ & _ & _ & _ & Hp).
    destruct r1 as [s|e]; destruct H as [? ->]; simplify_eq.
    exists p, s. simpl. rewrite lookup_insert_eq.
    destruct Hp as (_ & _ & _ & _ & Hp).
    split; [done|]. split; [done|]. split; [done|]. split; [done|].
    destruct (is_cli (cls p)), (spawn_result p env); simpl in *; tauto.
  - intros p r st' Hp.
    apply provider_start_spec in Hp as (_ & _ & _ & _ & Hp).
    destruct r as [s|e]; [|done].
    destruct Hp as (_ & _ & _ & _ & Hp).
    destruct (is_cli (cls p)), (spawn_result p env); simpl in *; try tauto.
    right. destruct Hp. eauto.
Qed.

(** ** Stopping a session at the orchestrator *)

Lemma stop_session_spec sid rel st s p :
  sessions st !! sid = Some s →
  providers st !! name (provider_config s) = Some p →
  ∃ b st', Orchestrator.stop_session sid rel st = (Ok b, st') ∧
    b = (if is_cli (cls p)
         then bool_decide (is_Some (process s)) && negb (release_fails rel)
         else true) ∧
    sessions st' = (if b then delete sid (sessions st) else sessions st) ∧
    providers st' = providers st ∧ lists st' = lists st.
Proof.
  intros Hs Hp.
  unfold Orchestrator.stop_session, Orchestrator.get_session,
    Orchestrator.get_provider, Orchestrator.on_registered,
    Orchestrator.unregister.
  unfold mbind, M_bind, mret, M_ret. rewrite Hs, Hp.
  destruct (provider_stop_spec p rel s st)
    as (b & s' & st' & -> & Hpr & Hss & Hl & -> & Hb).
  exists b. destruct b; simpl; eexists; (split; [reflexivity|]); simpl;
    rewrite Hss; (split; [done|]); (split; [|done]).
  - by rewrite delete_insert_eq.
  - by apply insert_id.
Qed.

Lemma stop_session_unknown sid rel st :
  sessions st !! sid = None →
  Orchestrator.stop_session sid rel st = (Ok false, st).
Proof.
  intros Hs. unfold Orchestrator.stop_session, Orchestrator.get_session.
  unfold mbind, M_bind, mret, M_ret. by rewrite Hs.
Qed.

(** Claim C7 as stated fails: the session of the Gemini provider starts,
    [terminate()] raises when it is stopped, [stop_session] returns false
    and the session stays in the registry. *)
Lemma stop_failure_keeps_session :
  ∃ sid st1 st2,
    Orchestrator.start_session "gemini" (ProbeCode 0) (good_start "00000000-0000-4000-8000-000000000003") fresh_state
      = (Ok sid, st1) ∧
    Orchestrator.stop_session sid
      {| terminate_result := Raise (Exn OtherError "[Errno 1] Operation not permitted");
         poll_exited := Ok false; kill_result := Ok tt |} st1
      = (Ok false, st2) ∧
    is_Some (sessions st2 !! sid).
Proof.
  do 3 eexists. split; [reflexivity|]. split; [reflexivity|].
  eexists. reflexivity.
Qed.

(** Claim C7, amended.  With the providers registered under their names:
    after [start_session] returned an identifier, [stop_session] on it
    returns, and the registry has no entry for the identifier exactly when
    it returned true.  It returns true for every HTTP provider, and for a
    subprocess provider whose process was spawned exactly when releasing
    the process raised nothing. *)
Theorem start_then_stop (name : string) (pr : probe) (env : start_env) (rel : release)
    (st : State) (sid : string) (st1 : State) :
  keyed (providers st) →
  Orchestrator.start_session name pr env st = (Ok sid, st1) →
  ∃ p b st2,
    providers st !! name = Some p ∧
    Orchestrator.stop_session sid rel st1 = (Ok b, st2) ∧
    (sessions st2 !! sid = None ↔ b = true) ∧
    (is_cli (cls p) = false → b = true) ∧
    (is_cli (cls p) = true → (∃ pr', spawn_result p env = Ok pr') →
       b = negb (release_fails rel)).
Proof.
  intros Hk Hstart. apply start_session_inv in Hstart.
  destruct (providers st !! name) as [p|] eqn:Hp; [|by destruct Hstart].
  destruct (provider_is_available p pr); [|by destruct Hstart].
  destruct Hstart as (r1 & st0 & Hps & H).
  apply provider_start_spec in Hps as (Hpr & _ & _ & _ & Hs).
  destruct r1 as [s|e]; destruct H as [? ->]; simplify_eq.
  destruct Hs as (_ & Hcfg & _ & _ & Hs).
  destruct (stop_session_spec (session_id s) rel
              (set_sessions (<[session_id s := s]> (sessions st0)) st0) s p)
    as (b & st2 & Hstop & Hb & Hss & _ & _).
  { simpl. apply lookup_insert_eq. }
  { simpl. rewrite Hcfg, Hpr, (Hk _ _ Hp). done. }
  exists p, b, st2. split; [done|]. split; [done|]. split; [|split].
  - rewrite Hss. destruct b; simpl.
    + by rewrite lookup_delete_eq.
    + rewrite lookup_insert_eq. split; intros; discriminate.
  - intros Hc. by rewrite Hc in Hb.
  - intros Hc (pr' & Hsp). rewrite Hc in Hb, Hs. rewrite Hsp in Hs.
    destruct Hs as [_ Hproc]. rewrite Hb, Hproc.
    by rewrite bool_decide_eq_true_2 by eauto.
Qed.

Lemma start_then_stop_witness :
  ∃ p b st2,
    providers fresh_state !! "ollama" = Some p ∧
    Orchestrator.stop_session "00000000-0000-4000-8000-000000000004" good_stop
      (snd (Orchestrator.start_session "ollama" (ProbeCode 200)
              (good_start "00000000-0000-4000-8000-000000000004") fresh_state))
      = (Ok b, st2) ∧
    (sessions st2 !! "00000000-0000-4000-8000-000000000004" = None ↔ b = true) ∧
    (is_cli (cls p) = false → b = true) ∧
    (is_cli (cls p) = true →
       (∃ pr', spawn_result p (good_start "00000000-0000-4000-8000-000000000004") = Ok pr') →
       b = negb (release_fails good_stop)).
Proof.
  apply (start_then_stop "ollama" (ProbeCode 200)
           (good_start "00000000-0000-4000-8000-000000000004") good_stop fresh_state).
  - intros k p. unfold fresh_state, default_providers. simpl.
    rewrite !lookup_insert. repeat case_decide; intros; simplify_eq; done.
  - reflexivity.
Defined.

(** ** Sending a message *)

Lemma advance_now st : now st ≤ now (advance st).
Proof. simpl. lia. Qed.

Lemma record_exchange_spec message response s st :
  ∃ t1 tu ta st',
    record_exchange message response (s, st)
      = (Ok tt, (set_last_activity t1 s, st')) ∧
    now st ≤ t1 ∧ t1 ≤ tu ∧ tu ≤ ta ∧ ta ≤ now st' ∧
    providers st' = providers st ∧ sessions st' = sessions st ∧
    lists st' = <[conversation_history s :=
                    history s st ++ [mkEntry "user" message tu;
                                     mkEntry "assistant" response ta]]> (lists st).
Proof.
  unfold record_exchange, list_append. munfold. simpl.
  exists (now st), (now (advance st)), (now (advance (advance st))).
  eexists. split; [reflexivity|]. simpl.
  repeat (split; [lia || done|]).
  unfold history, list_read; simpl.
  rewrite lookup_insert_eq. simpl. rewrite insert_insert_eq.
  by rewrite <- app_assoc.
Qed.

#[local] Opaque record_exchange.

Lemma provider_send_inv p message env s st r s' st' :
  provider_send_message p message env (s, st) = (r, (s', st')) →
  providers st' = providers st ∧ sessions st' = sessions st ∧
  now st ≤ now st' ∧
  match r with
  | Ok reply =>
      ∃ st1, now st ≤ now st1 ∧ lists st1 = lists st ∧
        record_exchange message reply (s, st1) = (Ok tt, (s', st'))
  | Raise e => s' = s ∧ lists st' = lists st
  end.
Proof.
  assert (Hcli : ∀ cfg, CLI.send_message cfg message (cli env) (s, st)
                        = (r, (s', st')) →
    providers st' = providers st ∧ sessions st' = sessions st ∧
    now st ≤ now st' ∧
    match r with
    | Ok reply =>
        ∃ st1, now st ≤ now st1 ∧ lists st1 = lists st ∧
          record_exchange message reply (s, st1) = (Ok tt, (s', st'))
    | Raise e => s' = s ∧ lists st' = lists st
    end).
  { intros cfg. unfold CLI.send_message, wait_for, CLI._read_output. munfold.
    destruct (negb _ || negb _); [intros; simplify_eq; repeat split; auto; lia|].
    destruct (write_result (cli env)) as [[]|]; simpl;
      [|case_bool_decide; intros; simplify_eq; repeat split; auto; lia].
    destruct (_ || _); simpl;
      [intros; simplify_eq; simpl; repeat split; auto; lia|].
    destruct (read_result (cli env)) as [line|]; simpl;
      [|case_bool_decide; intros; simplify_eq; simpl; repeat split; auto; lia].
    destruct (record_exchange_spec message (strip line) s (advance st))
      as (t1 & tu & ta & st2 & Hre & ? & ? & ? & ? & Hp & Hss & Hl).
    rewrite Hre. simpl. intros ?; simplify_eq.
    rewrite Hp, Hss. simpl in *. repeat split; auto; [lia|].
    exists (advance st). simpl. repeat split; auto; lia. }
  assert (Hhttp : ∀ cfg field, HTTP.send_message cfg message field (http env) (s, st)
                        = (r, (s', st')) →
    providers st' = providers st ∧ sessions st' = sessions st ∧
    now st ≤ now st' ∧
    match r with
    | Ok reply =>
        ∃ st1, now st ≤ now st1 ∧ lists st1 = lists st ∧
          record_exchange message reply (s, st1) = (Ok tt, (s', st'))
    | Raise e => s' = s ∧ lists st' = lists st
    end).
  { intros cfg field. unfold HTTP.send_message, client_timeout. munfold.
    destruct (negb _); [intros; simplify_eq; repeat split; auto; lia|].
    destruct (_ && _); simpl;
      [intros; simplify_eq; simpl; repeat split; auto; lia|].
    destruct (http_result (http env)) as [reply|]; simpl;
      [|intros; simplify_eq; simpl; repeat split; auto; lia].
    case_bool_decide.
    - destruct (reply_text reply) as [o|]; simpl;
        [|intros; simplify_eq; simpl; repeat split; auto; lia].
      destruct (field o) as [text|]; simpl;
        [|intros; simplify_eq; simpl; repeat split; auto; lia].
      destruct (record_exchange_spec message text s (advance st))
        as (t1 & tu & ta & st2 & Hre & ? & ? & ? & ? & Hp & Hss & Hl).
      rewrite Hre. simpl. intros ?; simplify_eq.
      rewrite Hp, Hss. simpl in *. repeat split; auto; [lia|].
      exists (advance st). simpl. repeat split; auto; lia.
    - destruct (reply_raw reply); simpl;
        intros; simplify_eq; simpl; repeat split; auto; lia. }
  unfold provider_send_message.
  destruct (cls p); [apply Hcli|apply Hhttp|apply Hcli|apply Hhttp].
Qed.

#[local] Transparent record_exchange.

(** Claim C5.  When [send_message] of a provider returns a reply, the log
    of the session is the log before the call followed by the user turn
    and then the assistant turn, and nothing else; both timestamps and the
    new [last_activity] were read from the clock during the call (between
    its reading at the start and its reading at the return, user before
    assistant); no other field of the session changed. *)
Theorem send_message_appends_exchange (p : AIProvider) (message : string)
    (env : send_env) (s : AISession) (st : State) (reply : string)
    (s' : AISession) (st' : State) :
  provider_send_message p message env (s, st) = (Ok reply, (s', st')) →
  ∃ tu ta,
    history s' st' = history s st ++ [mkEntry "user" message tu;
                                      mkEntry "assistant" reply ta] ∧
    now st ≤ tu ∧ tu ≤ ta ∧ ta ≤ now st' ∧
    now st ≤ last_activity s' ∧ last_activity s' ≤ now st' ∧
    s' = set_last_activity (last_activity s') s.
Proof.
  intros H. apply provider_send_inv in H as (_ & _ & _ & st1 & Hn & Hl & Hre).
  destruct (record_exchange_spec message reply s st1)
    as (t1 & tu & ta & st2 & Hre' & ? & ? & ? & ? & _ & _ & Hl2).
  rewrite Hre in Hre'. simplify_eq.
  exists tu, ta. simpl. repeat split; try lia.
  unfold history, list_read in *. simpl. rewrite Hl2, lookup_insert_eq. simpl.
  by rewrite Hl.
Qed.

Lemma send_message_appends_exchange_witness :
  ∃ tu ta,
    history (set_last_activity 1001 active_session)
      (snd (snd (provider_send_message (mkAIProvider GeminiCLIProvider gemini_config)
                   "hi" (good_send "hello") (active_session, fresh_state))))
    = history active_session fresh_state
        ++ [mkEntry "user" "hi" tu; mkEntry "assistant" "hello" ta] ∧
    now fresh_state ≤ tu ∧ tu ≤ ta ∧ ta ≤ 1004 ∧
    now fresh_state ≤ 1001 ∧ 1001 ≤ 1004 ∧
    set_last_activity 1001 active_session
      = set_last_activity 1001 active_session.
Proof.
  apply (send_message_appends_exchange
           (mkAIProvider GeminiCLIProvider gemini_config) "hi"
           (good_send "hello") active_session fresh_state "hello"
           (set_last_activity 1001 active_session)).
  reflexivity.
Defined.




Lemma send_message_inv sid message env st r st' :
  Orchestrator.send_message sid message env st = (r, st') →
  match sessions st !! sid with
  | None => r = Raise (UnknownSession sid) ∧ st' = st
  | Some s =>
      match providers st !! name (provider_config s) with
      | None => r = Raise (UnknownProvider (name (provider_config s))) ∧ st' = st
      | Some p =>
          ∃ s' st1, provider_send_message p message env (s, st) = (r, (s', st1)) ∧
            st' = set_sessions (<[sid := s']> (sessions st1)) st1
      end
  end.
Proof.
  unfold Orchestrator.send_message, Orchestrator.get_session,
    Orchestrator.get_provider, Orchestrator.on_registered.
  unfold mbind, M_bind, mret, M_ret, raise.
  destruct (sessions st !! sid) as [s|]; [|by intros; simplify_eq].
  destruct (providers st !! name (provider_config s)) as [p|];
    [|by intros; simplify_eq].
  destruct (provider_send_message p message env (s, st)) as [r1 [s' st1]].
  intros; simplify_eq. eauto.
Qed.

(** ** The invariant holds in every reachable state *)

Lemma wf_fresh_state : wf fresh_state.
Proof. intros sid s H. simpl in H. by rewrite lookup_empty in H. Qed.

Lemma wf_insert sid s st st1 :
  wf st →
  sessions st1 = sessions st →
  (∀ a, a ∈ dom (lists st) → a ∈ dom (lists st1)) →
  session_id s = sid → conversation_history s ∈ dom (lists st1) →
  wf (set_sessions (<[sid := s]> (sessions st1)) st1).
Proof.
  intros Hwf Hss Hdom Hid Hh sid2 s2. simpl. rewrite Hss, lookup_insert.
  case_decide; intros ?; simplify_eq; [done|].
  destruct (Hwf sid2 s2) as [? ?]; auto.
Qed.

Lemma wf_start_session name pr env st r st' :
  wf st → Orchestrator.start_session name pr env st = (r, st') → wf st'.
Proof.
  intros Hwf H. apply start_session_inv in H.
  destruct (providers st !! name) as [p|]; [|by destruct H as [_ ->]].
  destruct (provider_is_available p pr); [|by destruct H as [_ ->]].
  destruct H as (r1 & st1 & Hp & H).
  apply provider_start_spec in Hp as (_ & Hss & _ & Hold & Hr).
  assert (Hdom : ∀ a, a ∈ dom (lists st) → a ∈ dom (lists st1)).
  { intros a Ha. apply elem_of_dom. rewrite (Hold a Ha). by apply elem_of_dom. }
  destruct r1 as [s|e]; destruct H as [_ ->].
  - destruct Hr as (_ & _ & _ & Hl & _).
    apply (wf_insert _ _ st); auto. apply elem_of_dom. eauto.
  - intros sid s Hs. rewrite Hss in Hs. destruct (Hwf sid s Hs). auto.
Qed.

Lemma wf_send_message sid message env st r st' :
  wf st → Orchestrator.send_message sid message env st = (r, st') → wf st'.
Proof.
  intros Hwf H. apply send_message_inv in H.
  destruct (sessions st !! sid) as [s|] eqn:Hs; [|by destruct H as [_ ->]].
  destruct (providers st !! name (provider_config s)) as [p|];
    [|by destruct H as [_ ->]].
  destruct H as (s' & st1 & Hp & ->).
  destruct (Hwf sid s Hs) as [Hid Hh].
  apply provider_send_inv in Hp as (_ & Hss & _ & Hr).
  destruct r as [reply|e].
  - destruct Hr as (st0 & _ & Hl0 & Hre).
    destruct (record_exchange_spec message reply s st0)
      as (t1 & tu & ta & st2 & Hre' & _ & _ & _ & _ & _ & _ & Hl).
    rewrite Hre in Hre'. simplify_eq.
    apply (wf_insert _ _ st); auto.
    + intros a Ha. rewrite Hl, dom_insert, Hl0. set_solver.
    + simpl. rewrite Hl, dom_insert. set_solver.
  - destruct Hr as [-> Hl]. apply (wf_insert _ _ st); auto.
    + intros a. by rewrite Hl.
    + by rewrite Hl.
Qed.

Lemma wf_stop_session sid rel st r st' :
  wf st → Orchestrator.stop_session sid rel st = (r, st') → wf st'.
Proof.
  intros Hwf H.
  destruct (sessions st !! sid) as [s|] eqn:Hs.
  - destruct (providers st !! name (provider_config s)) as [p|] eqn:Hp.
    + destruct (stop_session_spec sid rel st s p Hs Hp)
        as (b & st2 & Hstop & _ & Hss & _ & Hl).
      rewrite Hstop in H. simplify_eq.
      intros sid2 s2. rewrite Hss, Hl. destruct b.
      * destruct (decide (sid = sid2)) as [->|Hne].
        -- by rewrite lookup_delete_eq.
        -- rewrite lookup_delete_ne by done. apply Hwf.
      * apply Hwf.
    + revert H. unfold Orchestrator.stop_session, Orchestrator.get_session,
        Orchestrator.get_provider. unfold mbind, M_bind, mret, M_ret.
      rewrite Hs, Hp. by intros; simplify_eq.
  - rewrite (stop_session_unknown _ _ _ Hs) in H. by simplify_eq.
Qed.

(** ** The history handed to the caller *)

Lemma apply_op_frame h o st :
  providers (apply_op h o st) = providers st ∧
  sessions (apply_op h o st) = sessions st ∧
  now (apply_op h o st) = now st ∧
  dom (lists st) ⊆ dom (lists (apply_op h o st)) ∧
  ∀ a, a ≠ h → lists (apply_op h o st) !! a = lists st !! a.
Proof.
  destruct o as [x|]; simpl; unfold list_append, list_pop; simpl.
  - do 3 (split; [done|]). split; [set_solver|].
    intros a Ha. by rewrite lookup_insert_ne.
  - destruct (reverse (list_read h st)); simpl.
    + by do 4 (split; [done|]).
    + do 3 (split; [done|]). split; [set_solver|].
      intros a Ha. by rewrite lookup_insert_ne.
Qed.

Lemma apply_ops_frame h ops st :
  providers (apply_ops h ops st) = providers st ∧
  sessions (apply_ops h ops st) = sessions st ∧
  now (apply_ops h ops st) = now st ∧
  dom (lists st) ⊆ dom (lists (apply_ops h ops st)) ∧
  ∀ a, a ≠ h → lists (apply_ops h ops st) !! a = lists st !! a.
Proof.
  revert st. induction ops as [|o ops IH]; intros st; simpl.
  - by do 4 (split; [done|]).
  - destruct (IH (apply_op h o st)) as (Hp & Hs & Hn & Hd & Hl).
    destruct (apply_op_frame h o st) as (Hp' & Hs' & Hn' & Hd' & Hl').
    unfold apply_ops in *.
    rewrite Hp, Hs, Hn. do 3 (split; [done|]). split; [by etrans|].
    intros a Ha. rewrite Hl by done. by apply Hl'.
Qed.

(** The store does tell an alias from a copy: appending through the
    address the session itself holds changes its log. *)

Lemma append_through_alias s x st :
  history s (apply_op (conversation_history s) (Append x) st)
  = history s st ++ [x].
Proof.
  unfold history, list_read, apply_op, list_append. simpl.
  by rewrite lookup_insert_eq.
Qed.

(** Claim C10.  For a registered session, [get_session_history] returns
    a list that is not the session's own: it holds the entries of the log;
    the call leaves the providers, the registry, the clock and the log of
    every registered session as they were; and whatever is appended to or
    popped from the returned list afterwards, the registry and the log of
    every registered session stay as they were. *)
Theorem get_session_history_returns_copy (sid : string) (s : AISession) (st : State) :
  wf st → sessions st !! sid = Some s →
  ∃ h st',
    Orchestrator.get_session_history sid st = (Ok h, st') ∧
    list_read h st' = history s st ∧
    providers st' = providers st ∧ sessions st' = sessions st ∧
    now st' = now st ∧
    (∀ sid2 s2, sessions st !! sid2 = Some s2 → history s2 st' = history s2 st) ∧
    ∀ ops,
      sessions (apply_ops h ops st') = sessions st ∧
      ∀ sid2 s2, sessions st !! sid2 = Some s2 →
        history s2 (apply_ops h ops st') = history s2 st.
Proof.
  intros Hwf Hs.
  unfold Orchestrator.get_session_history, Orchestrator.get_session,
    list_copy, list_new.
  unfold mbind, M_bind, mret, M_ret. rewrite Hs.
  set (h := fresh (dom (lists st))).
  assert (Hfr : h ∉ dom (lists st)) by apply is_fresh.
  assert (Hne : ∀ sid2 s2, sessions st !! sid2 = Some s2 →
                  conversation_history s2 ≠ h).
  { intros sid2 s2 H2 Heq. destruct (Hwf sid2 s2 H2) as [_ Hin].
    rewrite Heq in Hin. by apply Hfr. }
  do 2 eexists. split; [reflexivity|]. fold h. simpl.
  split; [|do 3 (split; [done|]); split; [|intros ops; split]].
  - unfold list_read at 1. simpl. by rewrite lookup_insert_eq.
  - intros sid2 s2 H2. unfold history, list_read. simpl.
    rewrite lookup_insert_ne; [done|]. intros Heq. by apply (Hne sid2 s2).
  - by destruct (apply_ops_frame h ops
        (set_lists (<[h:=list_read (conversation_history s) st]> (lists st)) st))
      as (_ & -> & _).
  - intros sid2 s2 H2.
    destruct (apply_ops_frame h ops
        (set_lists (<[h:=list_read (conversation_history s) st]> (lists st)) st))
      as (_ & _ & _ & _ & Hl).
    unfold history, list_read. rewrite Hl by (by apply (Hne sid2 s2)).
    simpl. rewrite lookup_insert_ne; [done|].
    intros Heq. by apply (Hne sid2 s2).
Qed.

Lemma wf_chat_state : wf chat_state.
Proof.
  intros sid s. simpl. rewrite lookup_singleton.
  case_decide; intros ?; simplify_eq. split; [done|].
  simpl. rewrite dom_singleton_L. by apply elem_of_singleton.
Qed.

Lemma get_session_history_returns_copy_witness :
  wf chat_state ∧
  sessions chat_state !! "00000000-0000-4000-8000-000000000005" = Some active_session ∧
  ∃ h st',
    Orchestrator.get_session_history "00000000-0000-4000-8000-000000000005" chat_state
      = (Ok h, st') ∧
    list_read h st' = history active_session chat_state ∧
    history active_session
      (apply_ops h [Pop; Append (mkEntry "user" "bye" 0)] st')
    = history active_session chat_state.
Proof.
  split; [apply wf_chat_state|]. split; [reflexivity|].
  destruct (get_session_history_returns_copy
              "00000000-0000-4000-8000-000000000005" active_session chat_state
              wf_chat_state eq_refl)
    as (h & st' & Hcall & Hread & _ & _ & _ & _ & Hops).
  exists h, st'. split; [exact Hcall|]. split; [exact Hread|].
  apply (proj2 (Hops [Pop; Append (mkEntry "user" "bye" 0)])
           "00000000-0000-4000-8000-000000000005" active_session).
  reflexivity.
Defined.

(** What the methods of a provider look at in a session. *)

(** The text a provider's pipeline yields when it runs alone. *)

(** The identifiers drawn for the sessions of one comparison differ. *)

(** ** Results do not depend on the clock or on the store *)


(** The outcome of starting a session, up to timestamps and addresses. *)


#[local] Opaque record_exchange.


#[local] Transparent record_exchange.

(** ** One call of the orchestrator touches one entry of the registry *)

Lemma start_session_frame name pr env st r st' :
  Orchestrator.start_session name pr env st = (r, st') →
  providers st' = providers st ∧
  (∀ sid, r = Ok sid → sid = uuid4 env) ∧
  ∀ sid', sid' ≠ uuid4 env → sessions st' !! sid' = sessions st !! sid'.
Proof.
  intros H. apply start_session_inv in H.
  destruct (providers st !! name) as [p|]; [|by destruct H as [-> ->]].
  destruct (provider_is_available p pr); [|by destruct H as [-> ->]].
  destruct H as (r1 & st1 & Hp & H).
  apply provider_start_spec in Hp as (Hpr & Hss & _ & _ & Hr).
  destruct r1 as [s|e]; destruct H as [-> ->]; simpl.
  - destruct Hr as (Hid & _). split; [done|]. split.
    + intros sid ?. by simplify_eq.
    + intros sid' Hne. rewrite lookup_insert_ne by congruence. by rewrite Hss.
  - by rewrite Hss.
Qed.

Lemma send_message_frame sid message env st r st' :
  Orchestrator.send_message sid message env st = (r, st') →
  providers st' = providers st ∧
  ∀ sid', sid' ≠ sid → sessions st' !! sid' = sessions st !! sid'.
Proof.
  intros H. apply send_message_inv in H.
  destruct (sessions st !! sid) as [s|]; [|by destruct H as [-> ->]].
  destruct (providers st !! name (provider_config s)) as [p|];
    [|by destruct H as [-> ->]].
  destruct H as (s' & st1 & Hp & ->).
  apply provider_send_inv in Hp as (Hpr & Hss & _). simpl.
  split; [done|]. intros sid' Hne.
  rewrite lookup_insert_ne by done. by rewrite Hss.
Qed.




(** What is known of a task of the comparison started in [st0], whatever
    the other tasks did in between: it is where the pipeline run alone
    would be, and while it waits to send, its session is registered. *)

(** How far a task has come. *)

(** ** A pipeline run alone *)


(** ** Tasks of one comparison do not disturb each other *)



(** What is known of all tasks of a comparison at once. *)

(** Task [j] has not gone backwards from [ts] to [ts'], and has moved on
    if [moved] and it was not finished. *)





(** Every interleaving ends with every task finished, each with the text
    its pipeline yields when run alone. *)


(** ** The result of a comparison *)




(** The scenario of the specification: three providers, the probe of the
    second fails; every task draws its own session identifier. *)



(** The scenario evaluated: three slots, the second an error text, the
    others real replies; every session was stopped and removed. *)
Example compare_scenario :
  ∃ results st',
    compare_providers (Some "hi") scenario_names scenario_envs
      [2%nat; 0%nat; 2%nat; 1%nat; 0%nat] fresh_state
      = (Ok (inr results), st') ∧
    slot_response <$> results !! "gemini" = Some "reply 0" ∧
    slot_response <$> results !! "ollama"
      = Some "Error: Provider not available: ollama" ∧
    slot_response <$> results !! "qwen" = Some "reply 2" ∧
    size results = 3%nat ∧ sessions st' = ∅.
Proof.
  do 2 eexists. split; [vm_compute; reflexivity|].
  repeat split; vm_compute; reflexivity.
Qed.

(** * Further properties of the orchestrator *)

(** ** Failure of a send *)

(** Whenever [send_message] of the orchestrator raises, for whatever
    reason (unknown session, unknown provider, session not active, broken
    pipe, timeout, HTTP status, unreadable body), the registry, every
    session record and every conversation log are as they were. *)
Theorem send_message_failure_changes_nothing (sid message : string)
    (env : send_env) (st : State) (e : exn) (st' : State) :
  Orchestrator.send_message sid message env st = (Raise e, st') →
  providers st' = providers st ∧ sessions st' = sessions st ∧
  lists st' = lists st.
Proof.
  intros H. apply send_message_inv in H.
  destruct (sessions st !! sid) as [s|] eqn:Hs; [|by destruct H as [_ ->]].
  destruct (providers st !! name (provider_config s)) as [p|];
    [|by destruct H as [_ ->]].
  destruct H as (s' & st1 & Hp & ->).
  apply provider_send_inv in Hp as (Hpr & Hss & _ & -> & Hl). simpl.
  split; [done|]. split; [|done]. rewrite Hss. by apply insert_id.
Qed.

Lemma send_message_failure_changes_nothing_witness :
  ∃ e st',
    Orchestrator.send_message "00000000-0000-4000-8000-000000000005" "again"
      silent_send chat_state = (Raise e, st') ∧
    providers st' = providers chat_state ∧ sessions st' = sessions chat_state ∧
    lists st' = lists chat_state.
Proof.
  eexists _, _. split; [reflexivity|].
  eapply (send_message_failure_changes_nothing
            "00000000-0000-4000-8000-000000000005" "again" silent_send chat_state).
  reflexivity.
Defined.

(** ** After a session was stopped *)

Lemma stop_true_removes sid rel st st' :
  Orchestrator.stop_session sid rel st = (Ok true, st') →
  sessions st' !! sid = None.
Proof.
  intros H. destruct (sessions st !! sid) as [s|] eqn:Hs.
  - destruct (providers st !! name (provider_config s)) as [p|] eqn:Hp.
    + destruct (stop_session_spec sid rel st s p Hs Hp)
        as (b & st2 & Hstop & _ & Hss & _).
      rewrite Hstop in H. simplify_eq. rewrite Hss. apply lookup_delete_eq.
    + revert H. unfold Orchestrator.stop_session, Orchestrator.get_session,
        Orchestrator.get_provider. unfold mbind, M_bind, mret, M_ret.
      rewrite Hs, Hp. intros; simplify_eq.
  - rewrite (stop_session_unknown _ _ _ Hs) in H. simplify_eq.
Qed.

(** Once [stop_session] has returned true for an identifier, the
    identifier is unknown: sending to it and asking for its history raise
    "Session not found", and stopping it again returns false; none of
    these changes the state. *)
Theorem stopped_session_is_unknown (sid : string) (rel : release)
    (st st' : State) :
  Orchestrator.stop_session sid rel st = (Ok true, st') →
  (∀ message env,
     Orchestrator.send_message sid message env st'
     = (Raise (UnknownSession sid), st')) ∧
  Orchestrator.get_session_history sid st' = (Raise (UnknownSession sid), st') ∧
  (∀ rel', Orchestrator.stop_session sid rel' st' = (Ok false, st')).
Proof.
  intros H. apply stop_true_removes in H. split; [|split].
  - intros message env. unfold Orchestrator.send_message, Orchestrator.get_session.
    unfold mbind, M_bind. by rewrite H.
  - unfold Orchestrator.get_session_history, Orchestrator.get_session.
    unfold mbind, M_bind. by rewrite H.
  - intros rel'. by apply stop_session_unknown.
Qed.

Lemma stopped_session_is_unknown_witness :
  let st' := snd (Orchestrator.stop_session
                    "00000000-0000-4000-8000-000000000005" good_stop chat_state) in
  Orchestrator.send_message "00000000-0000-4000-8000-000000000005" "hi"
    (good_send "hello") st'
  = (Raise (UnknownSession "00000000-0000-4000-8000-000000000005"), st').
Proof.
  apply (stopped_session_is_unknown "00000000-0000-4000-8000-000000000005"
           good_stop chat_state).
  reflexivity.
Defined.

(** ** A provider that lacks the field it needs *)

(** A provider without the field its probe needs is never available,
    whatever the environment answers: [start_session] of the orchestrator
    raises "Provider not available" for it and starts nothing. *)
Theorem incomplete_provider_never_starts (n : string) (p : AIProvider)
    (pr : probe) (env : start_env) (st : State) :
  providers st !! n = Some p → lacks_required_field p →
  Orchestrator.start_session n pr env st = (Raise (ProviderUnavailable n), st).
Proof.
  intros Hp Hlack.
  assert (Ha : provider_is_available p pr = false).
  { unfold provider_is_available, lacks_required_field in *.
    destruct (cls p); try done.
    - unfold GeminiCLI.is_available, CLI.is_available, subprocess_run.
      by rewrite Hlack.
    - unfold Ollama.is_available, HTTP.is_available. by rewrite Hlack.
    - unfold OpenAICompatible.is_available, HTTP.is_available. by rewrite Hlack. }
  unfold Orchestrator.start_session, Orchestrator.get_provider.
  unfold mbind, M_bind. by rewrite Hp, Ha.
Qed.

Lemma incomplete_provider_never_starts_witness :
  let p := mkAIProvider GeminiCLIProvider
             (ProviderConfig_new "missing-required" GEMINI_CLI) in
  let st := {| providers := {[ "missing-required" := p ]}; sessions := ∅;
               lists := ∅; now := 0; tick := 0; drift := fun _ => 0%N |} in
  Orchestrator.start_session "missing-required" (ProbeCode 0)
    (good_start "00000000-0000-4000-8000-000000000007") st
  = (Raise (ProviderUnavailable "missing-required"), st).
Proof.
  apply (incomplete_provider_never_starts "missing-required"
           (mkAIProvider GeminiCLIProvider
              (ProviderConfig_new "missing-required" GEMINI_CLI))).
  - reflexivity.
  - reflexivity.
Defined.

(** ** A child process that answers nothing *)

Lemma lstrip_blank s : blank s = true → lstrip s = "".
Proof.
  induction s as [|a s IH]; simpl; [done|].
  intros [Ha Hs]%andb_true_iff. rewrite Ha. by apply IH.
Qed.

Lemma strip_blank s : blank s = true → strip s = "".
Proof. intros H. unfold strip. by rewrite (lstrip_blank s H). Qed.

#[local] Opaque record_exchange.

(** When the child process of a subprocess provider answers a line of
    white space only, or has closed its output ([readline] then returns
    the empty string), [send_message] does not fail: it returns the empty
    reply and appends the user turn and an empty assistant turn. *)
Theorem cli_blank_line_is_empty_reply (cfg : ProviderConfig) (message : string)
    (io : cli_round) (line : string) (s : AISession) (st : State) :
  is_Some (process s) → status s = ACTIVE →
  write_result io = Ok tt → read_result io = Ok line → blank line = true →
  0 < timeout cfg → read_latency io ≤ timeout cfg →
  ∃ s' st' tu ta,
    CLI.send_message cfg message io (s, st) = (Ok "", (s', st')) ∧
    history s' st' = history s st ++ [mkEntry "user" message tu;
                                      mkEntry "assistant" "" ta].
Proof.
  intros Hpr Hst Hw Hr Hb Hpos Hlat.
  unfold CLI.send_message, wait_for, CLI._read_output.
  unfold mbind, M_bind, mret, M_ret, get_session, try_except, lift, raise,
    on_state, io_wait.
  rewrite (bool_decide_eq_true_2 _ Hpr), (bool_decide_eq_true_2 _ Hst), Hw, Hr.
  simpl.
  replace (timeout cfg <=? 0) with false by (symmetry; apply Z.leb_gt; lia).
  replace (timeout cfg <? read_latency io) with false
    by (symmetry; apply Z.ltb_ge; lia).
  simpl. rewrite (strip_blank line Hb).
  destruct (record_exchange_spec message "" s (advance st))
    as (t1 & tu & ta & st2 & Hre & _ & _ & _ & _ & _ & _ & Hl).
  rewrite Hre. simpl. exists (set_last_activity t1 s), st2, tu, ta.
  split; [done|]. unfold history, list_read in *. simpl.
  by rewrite Hl, lookup_insert_eq.
Qed.

#[local] Transparent record_exchange.

Lemma cli_blank_line_is_empty_reply_witness :
  ∃ s' st' tu ta,
    CLI.send_message gemini_config "hi"
      {| write_result := Ok tt; read_latency := 0; read_result := Ok "" |}
      (active_session, chat_state) = (Ok "", (s', st')) ∧
    history s' st' = history active_session chat_state
                     ++ [mkEntry "user" "hi" tu; mkEntry "assistant" "" ta].
Proof.
  apply (cli_blank_line_is_empty_reply gemini_config "hi"
           {| write_result := Ok tt; read_latency := 0; read_result := Ok "" |}
           "" active_session chat_state).
  - by eexists.
  - reflexivity.
  - reflexivity.
  - reflexivity.
  - reflexivity.
  - simpl. lia.
  - simpl. lia.
Defined.

(** ** What a comparison leaves behind *)

(** In the pipeline of a comparison, a send that raises skips the stop
    step: the pipeline yields the error text, and the session it started
    stays in the registry. *)
Theorem failed_send_leaves_session_registered (message n : string)
    (env : pipeline_env) (st : State) (sid : string) (st1 : State)
    (e : exn) (st2 : State) :
  Orchestrator.start_session n (pe_probe env) (pe_start env) st = (Ok sid, st1) →
  Orchestrator.send_message sid message (pe_send env) st1 = (Raise e, st2) →
  get_provider_response message n env st = (Ok (n, error_text e), st2) ∧
  is_Some (sessions st2 !! sid).
Proof.
  intros Hstart Hsend. split.
  - unfold get_provider_response, try_except, mbind, M_bind, mret, M_ret.
    by rewrite Hstart, Hsend.
  - apply send_message_inv in Hsend.
    destruct (sessions st1 !! sid) as [s|] eqn:Hs.
    + destruct (providers st1 !! name (provider_config s)) as [p|].
      * destruct Hsend as (s' & st1' & _ & ->). simpl.
        rewrite lookup_insert_eq. by eexists.
      * destruct Hsend as [_ ->]. rewrite Hs. by eexists.
    + apply start_session_inv in Hstart.
      destruct (providers st !! n) as [p|]; [|by destruct Hstart].
      destruct (provider_is_available p (pe_probe env)); [|by destruct Hstart].
      destruct Hstart as ([s|e1] & st0 & _ & Hr); destruct Hr as [? ->];
        simplify_eq.
      simpl in Hs. by rewrite lookup_insert_eq in Hs.
Qed.

Lemma failed_send_leaves_session_registered_witness :
  let env := {| pe_probe := ProbeCode 200;
                pe_start := good_start "00000000-0000-4000-8000-000000000008";
                pe_send := silent_send; pe_stop := good_stop |} in
  ∃ e st2,
    get_provider_response "hi" "ollama" env fresh_state
      = (Ok ("ollama", error_text e), st2) ∧
    is_Some (sessions st2 !! "00000000-0000-4000-8000-000000000008").
Proof.
  eexists _, _.
  eapply (failed_send_leaves_session_registered "hi" "ollama"
            {| pe_probe := ProbeCode 200;
               pe_start := good_start "00000000-0000-4000-8000-000000000008";
               pe_send := silent_send; pe_stop := good_stop |} fresh_state).
  - reflexivity.
  - reflexivity.
Defined.

(** ** The registry after any sequence of calls *)

(** The ways one call changes the registry. *)
Lemma start_session_shape n pr env st r st' :
  keyed (providers st) →
  Orchestrator.start_session n pr env st = (r, st') →
  providers st' = providers st ∧
  (∀ a, a ∈ dom (lists st) → lists st' !! a = lists st !! a) ∧
  (sessions st' = sessions st ∨
   ∃ p s, sessions st' = <[uuid4 env := s]> (sessions st) ∧
     session_id s = uuid4 env ∧
     providers st !! name (provider_config s) = Some p ∧
     provider_config s = config p ∧ status_ok p s ∧
     (conversation_history s ∉ dom (lists st)) ∧
     conversation_history s ∈ dom (lists st')).
Proof.
  intros Hk H. apply start_session_inv in H.
  destruct (providers st !! n) as [p|] eqn:Hp.
  2:{ destruct H as [_ ->]. split; [done|]. split; [done|]. by left. }
  destruct (provider_is_available p pr).
  2:{ destruct H as [_ ->]. split; [done|]. split; [done|]. by left. }
  destruct H as (r1 & st1 & Hs & H).
  apply provider_start_spec in Hs as (Hpr & Hss & _ & Hold & Hr).
  destruct r1 as [s|e]; destruct H as [_ ->]; simpl.
  - split; [done|]. split; [done|]. right.
    destruct Hr as (Hid & Hcfg & Hfresh & Hl & Hst).
    exists p, s. rewrite Hid, Hss. split; [done|]. split; [done|].
    split; [by rewrite Hcfg, (Hk _ _ Hp)|]. split; [done|].
    split.
    { unfold status_ok. destruct (is_cli (cls p)); [|done].
      destruct (spawn_result p env); [left|right]; destruct Hst; eauto. }
    split; [done|]. apply elem_of_dom. eauto.
  - split; [done|]. split; [done|]. left. done.
Qed.

Lemma send_message_shape sid m env st r st' :
  Orchestrator.send_message sid m env st = (r, st') →
  providers st' = providers st ∧
  dom (lists st) ⊆ dom (lists st') ∧
  (sessions st' = sessions st ∨
   ∃ s t, sessions st !! sid = Some s ∧
     sessions st' = <[sid := set_last_activity t s]> (sessions st)).
Proof.
  intros H. apply send_message_inv in H.
  destruct (sessions st !! sid) as [s|] eqn:Hs.
  2:{ destruct H as [_ ->]. split; [done|]. split; [done|]. by left. }
  destruct (providers st !! name (provider_config s)) as [p|].
  2:{ destruct H as [_ ->]. split; [done|]. split; [done|]. by left. }
  destruct H as (s' & st1 & Hp & ->).
  apply provider_send_inv in Hp as (Hpr & Hss & _ & Hr). simpl.
  split; [done|]. destruct r as [reply|e].
  - destruct Hr as (st0 & _ & Hl0 & Hre).
    destruct (record_exchange_spec m reply s st0)
      as (t1 & tu & ta & st2 & Hre' & _ & _ & _ & _ & _ & _ & Hl).
    rewrite Hre in Hre'. simplify_eq. split.
    + rewrite Hl, dom_insert_L, Hl0. apply union_subseteq_r.
    + right. exists s, t1. by rewrite Hss.
  - destruct Hr as [-> Hl]. rewrite Hl. split; [done|]. left.
    rewrite Hss. by apply insert_id.
Qed.

Lemma stop_session_shape sid rel st :
  ∃ b st', Orchestrator.stop_session sid rel st = (Ok b, st') ∧
    providers st' = providers st ∧ lists st' = lists st ∧
    sessions st' = (if b then delete sid (sessions st) else sessions st) ∧
    (b = true → ∃ s, sessions st !! sid = Some s ∧ stops st s rel = true) ∧
    (b = false → ∀ s, sessions st !! sid = Some s → stops st s rel = false).
Proof.
  unfold stops. destruct (sessions st !! sid) as [s|] eqn:Hs.
  - destruct (providers st !! name (provider_config s)) as [p|] eqn:Hp.
    + destruct (stop_session_spec sid rel st s p Hs Hp)
        as (b & st2 & Hstop & Hb & Hss & Hpr & Hl).
      exists b, st2. do 4 (split; [done|]). split.
      * intros ->. exists s. by rewrite Hp.
      * intros -> s2 ?. simplify_eq. by rewrite Hp.
    + exists false, st. split.
      { unfold Orchestrator.stop_session, Orchestrator.get_session,
          Orchestrator.get_provider. unfold mbind, M_bind, mret, M_ret.
        by rewrite Hs, Hp. }
      do 3 (split; [done|]). split; [done|].
      intros _ s2 ?. simplify_eq. by rewrite Hp.
  - exists false, st. rewrite (stop_session_unknown _ _ _ Hs).
    do 4 (split; [done|]). split; [done|]. intros _ s2 ?. simplify_eq.
Qed.

Lemma sound_same st st' :
  sound st → providers st' = providers st → sessions st' = sessions st →
  dom (lists st) ⊆ dom (lists st') → sound st'.
Proof.
  intros (Hwf & Hk & Ho & Hsep) Hp Hs Hd. unfold sound, wf, owned, separate.
  rewrite Hp, Hs. split; [|done].
  intros sid s H. destruct (Hwf sid s H). split; [done|]. by apply Hd.
Qed.

Lemma sound_delete sid st st' :
  sound st → providers st' = providers st →
  sessions st' = delete sid (sessions st) →
  dom (lists st) ⊆ dom (lists st') → sound st'.
Proof.
  intros (Hwf & Hk & Ho & Hsep) Hp Hs Hd. unfold sound, wf, owned, separate.
  rewrite Hp, Hs. split; [|split; [done|split]].
  - intros k s [_ H]%lookup_delete_Some. destruct (Hwf k s H).
    split; [done|]. by apply Hd.
  - intros k s [_ H]%lookup_delete_Some. by apply (Ho k).
  - intros k1 k2 s1 s2 [_ H1]%lookup_delete_Some [_ H2]%lookup_delete_Some.
    by apply Hsep.
Qed.

Lemma sound_touch sid s t st st' :
  sound st → providers st' = providers st →
  sessions st !! sid = Some s →
  sessions st' = <[sid := set_last_activity t s]> (sessions st) →
  dom (lists st) ⊆ dom (lists st') → sound st'.
Proof.
  intros (Hwf & Hk & Ho & Hsep) Hp Hsid Hs Hd.
  unfold sound, wf, owned, separate. rewrite Hp, Hs.
  assert (Hlk : ∀ k s', <[sid:=set_last_activity t s]> (sessions st) !! k = Some s' →
            ∃ s0, sessions st !! k = Some s0 ∧
              session_id s' = session_id s0 ∧
              provider_config s' = provider_config s0 ∧
              status s' = status s0 ∧ process s' = process s0 ∧
              conversation_history s' = conversation_history s0).
  { intros k s'. rewrite lookup_insert. case_decide; intros ?; simplify_eq.
    - by exists s.
    - by exists s'. }
  split; [|split; [done|split]].
  - intros k s' (s0 & H0 & Hid & _ & _ & _ & Hh)%Hlk.
    destruct (Hwf k s0 H0). rewrite Hid, Hh. split; [done|]. by apply Hd.
  - intros k s' (s0 & H0 & _ & Hc & Hst & Hpr & _)%Hlk.
    destruct (Ho k s0 H0) as (p & ? & ? & Hok). exists p.
    rewrite Hc. split; [done|]. split; [done|].
    unfold status_ok in *. by rewrite Hst, Hpr.
  - intros k1 k2 s1 s2 (a1 & H1 & _ & _ & _ & _ & Hh1)%Hlk
      (a2 & H2 & _ & _ & _ & _ & Hh2)%Hlk Heq.
    apply (Hsep k1 k2 a1 a2 H1 H2). congruence.
Qed.

Lemma sound_insert p s st st' :
  sound st → providers st' = providers st →
  sessions st' = <[session_id s := s]> (sessions st) →
  providers st !! name (provider_config s) = Some p →
  provider_config s = config p → status_ok p s →
  conversation_history s ∉ dom (lists st) →
  conversation_history s ∈ dom (lists st') →
  dom (lists st) ⊆ dom (lists st') → sound st'.
Proof.
  intros (Hwf & Hk & Ho & Hsep) Hp Hs Hprov Hcfg Hok Hfresh Hin Hd.
  unfold sound, wf, owned, separate. rewrite Hp, Hs.
  split; [|split; [done|split]].
  - intros k s'. rewrite lookup_insert. case_decide; intros ?; simplify_eq.
    + done.
    + destruct (Hwf k s') as [? ?]; [done|]. split; [done|]. by apply Hd.
  - intros k s'. rewrite lookup_insert. case_decide; intros ?; simplify_eq.
    + by exists p.
    + by apply (Ho k).
  - intros k1 k2 s1 s2. rewrite !lookup_insert.
    repeat case_decide; intros ? ? Heq; simplify_eq; try done.
    + exfalso. apply Hfresh. rewrite Heq. by apply (Hwf k2 s2).
    + exfalso. apply Hfresh. rewrite <- Heq. by apply (Hwf k1 s1).
    + by apply (Hsep k1 k2 s1 s2).
Qed.
Lemma default_providers_keyed : keyed default_providers.
Proof.
  intros k p. unfold default_providers.
  rewrite !lookup_insert. repeat case_decide; intros; by simplify_eq.
Qed.

Lemma sound_start_session n pr env st r st' :
  sound st → Orchestrator.start_session n pr env st = (r, st') → sound st'.
Proof.
  intros Hs H.
  destruct (start_session_shape n pr env st r st' (proj1 (proj2 Hs)) H)
    as (Hp & Hold & Hshape).
  assert (Hd : dom (lists st) ⊆ dom (lists st')).
  { intros a Ha. apply elem_of_dom. rewrite (Hold a Ha). by apply elem_of_dom. }
  destruct Hshape as [Hsame|(p & s & Hss & Hid & Hprov & Hcfg & Hok & Hfr & Hin)].
  - by apply (sound_same st).
  - apply (sound_insert p s st); try done. by rewrite Hid.
Qed.

Lemma sound_send_message sid m env st r st' :
  sound st → Orchestrator.send_message sid m env st = (r, st') → sound st'.
Proof.
  intros Hs H.
  destruct (send_message_shape sid m env st r st' H) as (Hp & Hd & Hshape).
  destruct Hshape as [Hsame|(s & t & Hsid & Hss)].
  - by apply (sound_same st).
  - by apply (sound_touch sid s t st).
Qed.

Lemma sound_stop_session sid rel st r st' :
  sound st → Orchestrator.stop_session sid rel st = (r, st') → sound st'.
Proof.
  intros Hs H.
  destruct (stop_session_shape sid rel st) as (b & st2 & Hstop & Hp & Hl & Hss & _).
  rewrite Hstop in H. simplify_eq. destruct b.
  - apply (sound_delete sid st); try done. by rewrite Hl.
  - apply (sound_same st); try done. by rewrite Hl.
Qed.

Lemma sound_get_session_history sid st r st' :
  sound st → Orchestrator.get_session_history sid st = (r, st') → sound st'.
Proof.
  intros Hs. unfold Orchestrator.get_session_history, Orchestrator.get_session,
    list_copy, list_new. unfold mbind, M_bind, mret, M_ret, raise.
  destruct (sessions st !! sid) as [s|]; intros ?; simplify_eq; [|done].
  apply (sound_same st); try done. simpl. rewrite dom_insert_L.
  apply union_subseteq_r.
Qed.

(** The loop of [stop_all_sessions]: every stop returns; a session whose
    stop succeeds is removed, every other entry stays as it was. *)
Lemma stop_each_spec ids rel c st :
  ∃ n st', stop_each ids rel c st = (Ok n, st') ∧
    providers st' = providers st ∧ lists st' = lists st ∧
    (n + size (sessions st') = c + size (sessions st))%nat ∧
    (sound st → sound st') ∧
    ∀ sid, sessions st' !! sid =
      match sessions st !! sid with
      | Some s => if bool_decide (sid ∈ ids) && stops st s (rel sid)
                  then None else Some s
      | None => None
      end.
Proof.
  revert c st. induction ids as [|k ids IH]; intros c st.
  - exists c, st. simpl. do 5 (split; [done|]). intros sid.
    destruct (sessions st !! sid) as [s|]; [|done].
    destruct (bool_decide (sid ∈ [])) eqn:Hb; [|done].
    apply bool_decide_eq_true in Hb. by apply not_elem_of_nil in Hb.
  - simpl. unfold mbind, M_bind.
    destruct (stop_session_shape k (rel k) st)
      as (b & st1 & Hstop & Hp & Hl & Hss & Htrue & Hfalse).
    rewrite Hstop.
    destruct (IH (if b then S c else c) st1)
      as (n & st' & Hrun & Hp' & Hl' & Hsize & Hsound & Hlk).
    exists n, st'. split; [done|]. split; [congruence|]. split; [congruence|].
    assert (Hstops : ∀ s r, stops st1 s r = stops st s r)
      by (intros s r; unfold stops; by rewrite Hp).
    split; [|split].
    + rewrite Hsize, Hss. destruct b; [|done].
      destruct (Htrue eq_refl) as (s & Hs & _).
      assert (Hsz : size (sessions st) = S (size (delete k (sessions st)))).
      { rewrite <- (insert_delete_id (sessions st) k s Hs) at 1.
        apply map_size_insert_None, lookup_delete_eq. }
      lia.
    + intros Hs0. apply Hsound. by apply (sound_stop_session k (rel k) st (Ok b)).
    + intros sid. rewrite Hlk, Hss. destruct b.
      * destruct (Htrue eq_refl) as (s & Hs & Hst).
        destruct (decide (k = sid)) as [<-|Hne].
        -- rewrite lookup_delete_eq, Hs, Hst.
           by rewrite bool_decide_eq_true_2 by (apply elem_of_cons; by left).
        -- rewrite lookup_delete_ne by done.
           destruct (sessions st !! sid) as [s'|]; [|done].
           rewrite Hstops.
           rewrite (bool_decide_ext (sid ∈ ids) (sid ∈ k :: ids)); [done|].
           rewrite elem_of_cons. split; [by right|]. by intros [?|?]; [congruence|].
      * destruct (sessions st !! sid) as [s'|] eqn:Hs'; [|done].
        rewrite Hstops.
        destruct (decide (k = sid)) as [<-|Hne].
        -- rewrite (Hfalse eq_refl s' Hs'). by rewrite !andb_false_r.
        -- rewrite (bool_decide_ext (sid ∈ ids) (sid ∈ k :: ids)); [done|].
           rewrite elem_of_cons. split; [by right|]. by intros [?|?]; [congruence|].
Qed.

Lemma sound_after_call c st : sound st → sound (after_call c st).
Proof.
  intros Hs. destruct c as [n pr env|sid m env|sid rel|rel|sid]; simpl.
  - destruct (Orchestrator.start_session n pr env st) as [r st'] eqn:H.
    by apply (sound_start_session n pr env st r).
  - destruct (Orchestrator.send_message sid m env st) as [r st'] eqn:H.
    by apply (sound_send_message sid m env st r).
  - destruct (Orchestrator.stop_session sid rel st) as [r st'] eqn:H.
    by apply (sound_stop_session sid rel st r).
  - unfold stop_all_sessions.
    destruct (stop_each_spec (map_to_list (sessions st)).*1 rel 0 st)
      as (n & st' & -> & _ & _ & _ & Hsound & _). by apply Hsound.
  - destruct (Orchestrator.get_session_history sid st) as [r st'] eqn:H.
    by apply (sound_get_session_history sid st r).
Qed.

Lemma providers_after_call c st : providers (after_call c st) = providers st.
Proof.
  destruct c as [n pr env|sid m env|sid rel|rel|sid]; simpl.
  - destruct (Orchestrator.start_session n pr env st) as [r st'] eqn:H.
    by destruct (start_session_frame _ _ _ _ _ _ H).
  - destruct (Orchestrator.send_message sid m env st) as [r st'] eqn:H.
    by destruct (send_message_frame _ _ _ _ _ _ H).
  - by destruct (stop_session_shape sid rel st) as (b & st' & -> & ? & _).
  - unfold stop_all_sessions.
    by destruct (stop_each_spec (map_to_list (sessions st)).*1 rel 0 st)
      as (n & st' & -> & ? & _).
  - unfold Orchestrator.get_session_history, Orchestrator.get_session,
      list_copy, list_new. unfold mbind, M_bind, mret, M_ret, raise.
    by destruct (sessions st !! sid).
Qed.

Lemma sound_after_calls cs st :
  sound st →
  sound (after_calls cs st) ∧ providers (after_calls cs st) = providers st.
Proof.
  revert st. induction cs as [|c cs IH]; intros st Hs; [done|]. simpl.
  destruct (IH (after_call c st) (sound_after_call c st Hs)) as [? Hp].
  split; [done|]. by rewrite Hp, providers_after_call.
Qed.

Lemma sound_initial st :
  keyed (providers st) → sessions st = ∅ → sound st.
Proof.
  intros Hk He. unfold sound, wf, owned, separate. rewrite He.
  split; [|split; [done|split]]; intros *; by rewrite lookup_empty.
Qed.

(** An orchestrator whose providers are registered under their names and
    whose registry is empty, after any sequence of calls, each returning
    or raising: every registered session is filed under its own
    identifier; its provider resolves in the provider registry and is the
    one whose configuration the session holds; and its status is [ACTIVE]
    (with a process for a subprocess provider, without for an HTTP one) or,
    for a subprocess provider whose spawn failed, [ERROR] without a
    process.  No call ever leaves a session in the registry in status
    [INACTIVE], [STARTING] or [TERMINATING], and a failed send never moves
    a session to [ERROR]. *)
Theorem registered_sessions_stay_consistent (cs : list call) (st : State)
    (sid : string) (s : AISession) :
  keyed (providers st) → sessions st = ∅ →
  sessions (after_calls cs st) !! sid = Some s →
  session_id s = sid ∧
  ∃ p, providers st !! name (provider_config s) = Some p ∧
       provider_config s = config p ∧ status_ok p s.
Proof.
  intros Hk He Hs.
  destruct (sound_after_calls cs st (sound_initial st Hk He))
    as [(Hwf & _ & Ho & _) Hp].
  split; [by destruct (Hwf sid s Hs)|].
  destruct (Ho sid s Hs) as (p & ? & ? & ?). exists p. by rewrite <- Hp.
Qed.

Lemma registered_sessions_stay_consistent_witness :
  let sid := "00000000-0000-4000-8000-000000000009" in
  let cs := [StartSession "gemini" (ProbeCode 0)
               {| uuid4 := sid; spawned := Raise (Exn OtherError "EAGAIN");
                  tags := GetRaise; models_get := GetRaise |};
             SendMessage sid "hi" (good_send "hello");
             StopSession sid good_stop] in
  match sessions (after_calls cs fresh_state) !! sid with
  | Some s =>
      session_id s = sid ∧
      ∃ p, providers fresh_state !! name (provider_config s) = Some p ∧
           provider_config s = config p ∧ status_ok p s
  | None => False
  end.
Proof.
  intros sid cs.
  destruct (sessions (after_calls cs fresh_state) !! sid) as [s|] eqn:Hs.
  - exact (registered_sessions_stay_consistent cs fresh_state sid s
             default_providers_keyed eq_refl Hs).
  - vm_compute in Hs. discriminate.
Defined.

(** ** Sessions do not share their logs *)

(** In a state reached from an empty registry by any sequence of calls,
    sending to one session, whether it returns or raises, leaves every
    other registered session and its conversation log as they were. *)
Theorem send_message_touches_one_session (cs : list call) (st0 : State)
    (sid message : string) (env : send_env) (r : res string) (st' : State)
    (sid2 : string) (s2 : AISession) :
  keyed (providers st0) → sessions st0 = ∅ →
  Orchestrator.send_message sid message env (after_calls cs st0) = (r, st') →
  sid2 ≠ sid → sessions (after_calls cs st0) !! sid2 = Some s2 →
  sessions st' !! sid2 = Some s2 ∧
  history s2 st' = history s2 (after_calls cs st0).
Proof.
  intros Hk He Hsend Hne Hs2.
  destruct (sound_after_calls cs st0 (sound_initial st0 Hk He))
    as [(_ & _ & _ & Hsep) _].
  set (st := after_calls cs st0) in *.
  apply send_message_inv in Hsend.
  destruct (sessions st !! sid) as [s|] eqn:Hs; [|by destruct Hsend as [_ ->]].
  destruct (providers st !! name (provider_config s)) as [p|];
    [|by destruct Hsend as [_ ->]].
  destruct Hsend as (s' & st1 & Hp & ->).
  apply provider_send_inv in Hp as (_ & Hss & _ & Hr). simpl.
  rewrite lookup_insert_ne by done. rewrite Hss. split; [done|].
  unfold history, list_read. simpl. destruct r as [reply|e].
  - destruct Hr as (st2 & _ & Hl0 & Hre).
    destruct (record_exchange_spec message reply s st2)
      as (t1 & tu & ta & st3 & Hre' & _ & _ & _ & _ & _ & _ & Hl).
    rewrite Hre in Hre'. simplify_eq. rewrite Hl, Hl0.
    rewrite lookup_insert_ne; [done|].
    intros Heq. apply Hne. symmetry. by apply (Hsep sid sid2 s s2).
  - destruct Hr as [_ ->]. done.
Qed.

Lemma send_message_touches_one_session_witness :
  let a := "00000000-0000-4000-8000-00000000000a" in
  let b := "00000000-0000-4000-8000-00000000000b" in
  let cs := [StartSession "ollama" (ProbeCode 200) (good_start a);
             StartSession "qwen" (ProbeCode 200) (good_start b)] in
  let st' := snd (Orchestrator.send_message a "hi" (good_send "hello")
                    (after_calls cs fresh_state)) in
  match sessions (after_calls cs fresh_state) !! b with
  | Some s2 =>
      sessions st' !! b = Some s2 ∧
      history s2 st' = history s2 (after_calls cs fresh_state)
  | None => False
  end.
Proof.
  intros a b cs st'.
  destruct (sessions (after_calls cs fresh_state) !! b) as [s2|] eqn:Hs.
  - exact (send_message_touches_one_session cs fresh_state a "hi"
             (good_send "hello") _ st' b s2 default_providers_keyed eq_refl
             (surjective_pairing _) ltac:(discriminate) Hs).
  - vm_compute in Hs. discriminate.
Defined.

(** ** Stopping every session *)

(** [stop_all_sessions] always returns.  Every session whose stop
    succeeds is removed from the registry, every other session stays as it
    was, and the number returned is the number of sessions removed: one
    failure does not keep the others from being stopped. *)
Theorem stop_all_sessions_counts_removed (rel : string -> release) (st : State) :
  ∃ n st',
    stop_all_sessions rel st = (Ok n, st') ∧
    (n + size (sessions st') = size (sessions st))%nat ∧
    ∀ sid,
      sessions st' !! sid =
      match sessions st !! sid with
      | Some s => if stops st s (rel sid) then None else Some s
      | None => None
      end.
Proof.
  unfold stop_all_sessions.
  destruct (stop_each_spec (map_to_list (sessions st)).*1 rel 0 st)
    as (n & st' & Hrun & _ & _ & Hsize & _ & Hlk).
  exists n, st'. split; [done|]. split; [done|].
  intros sid. rewrite Hlk.
  destruct (sessions st !! sid) as [s|] eqn:Hs; [|done].
  rewrite bool_decide_eq_true_2; [done|].
  apply list_elem_of_fmap. exists (sid, s). split; [done|].
  by apply elem_of_map_to_list.
Qed.

(** ** The history after several messages *)

Lemma send_message_ok_log sid message env st reply st' s :
  sessions st !! sid = Some s →
  Orchestrator.send_message sid message env st = (Ok reply, st') →
  ∃ s', sessions st' !! sid = Some s' ∧
    spoken (history s' st')
    = spoken (history s st) ++ [("user", message); ("assistant", reply)].
Proof.
  intros Hs H. apply send_message_inv in H. rewrite Hs in H.
  destruct (providers st !! name (provider_config s)) as [p|];
    [|by destruct H].
  destruct H as (s' & st1 & Hp & ->).
  apply provider_send_inv in Hp as (_ & _ & _ & st0 & _ & Hl0 & Hre).
  destruct (record_exchange_spec message reply s st0)
    as (t1 & tu & ta & st2 & Hre' & _ & _ & _ & _ & _ & _ & Hl).
  rewrite Hre in Hre'. simplify_eq.
  exists (set_last_activity t1 s). simpl. rewrite lookup_insert_eq.
  split; [done|]. unfold spoken, history, list_read. simpl.
  rewrite Hl, lookup_insert_eq. unfold history, list_read. rewrite Hl0.
  simpl. by rewrite fmap_app.
Qed.

(** When several messages are sent to a registered session one after the
    other and every send returns, the history handed out afterwards is the
    log the session had before, followed by one user turn and one assistant
    turn per message, in the order of the calls, each assistant turn
    carrying the reply its call returned: two entries more per message. *)
Theorem history_after_sends (sid : string) (turns : list (string * send_env))
    (st : State) (s : AISession) (replies : list string) (st1 : State) :
  sessions st !! sid = Some s →
  send_each sid turns st = (Ok replies, st1) →
  ∃ h st2,
    Orchestrator.get_session_history sid st1 = (Ok h, st2) ∧
    spoken (list_read h st2)
    = spoken (history s st) ++ transcript turns.*1 replies ∧
    length replies = length turns ∧
    (length (list_read h st2) = length (history s st) + 2 * length turns)%nat.
Proof.
  revert st s replies st1.
  induction turns as [|[m env] turns IH]; intros st s replies st1 Hs Hrun.
  - simpl in Hrun. unfold mret, M_ret in Hrun. simplify_eq.
    unfold Orchestrator.get_session_history, Orchestrator.get_session,
      list_copy, list_new. unfold mbind, M_bind. rewrite Hs.
    eexists _, _. split; [reflexivity|].
    unfold list_read at 1 3. simpl. rewrite lookup_insert_eq. simpl.
    unfold history, list_read. rewrite app_nil_r. split; [done|].
    split; [done|]. lia.
  - simpl in Hrun. unfold mbind, M_bind, mret, M_ret in Hrun.
    destruct (Orchestrator.send_message sid m env st) as [[reply|e] st'] eqn:Hsend;
      [|simplify_eq].
    destruct (send_each sid turns st') as [[rs|e] st''] eqn:Hrest; simplify_eq.
    destruct (send_message_ok_log _ _ _ _ _ _ _ Hs Hsend) as (s' & Hs' & Hlog).
    destruct (IH _ _ _ _ Hs' Hrest) as (h & st2 & Hh & Hsp & Hlen & Hn).
    exists h, st2. split; [done|]. split; [|split].
    + rewrite Hsp, Hlog. simpl. by rewrite <- app_assoc.
    + simpl. by rewrite Hlen.
    + rewrite Hn. simpl.
      assert (length (history s' st') = length (history s st) + 2)%nat; [|lia].
      rewrite <- (length_fmap (fun e => (role e, content e)) (history s' st')).
      fold (spoken (history s' st')). rewrite Hlog, length_app.
      unfold spoken. by rewrite length_fmap.
Qed.

Lemma history_after_sends_witness :
  let sid := "00000000-0000-4000-8000-000000000005" in
  let turns := [("one", good_send "uno"); ("two", good_send "due")] in
  ∃ h st2,
    Orchestrator.get_session_history sid
      (snd (send_each sid turns chat_state)) = (Ok h, st2) ∧
    spoken (list_read h st2)
    = spoken (history active_session chat_state)
      ++ transcript turns.*1 ["uno"; "due"] ∧
    length ["uno"; "due"] = length turns ∧
    (length (list_read h st2)
     = length (history active_session chat_state) + 2 * length turns)%nat.
Proof.
  apply (history_after_sends "00000000-0000-4000-8000-000000000005"
           [("one", good_send "uno"); ("two", good_send "due")]
           chat_state active_session ["uno"; "due"]).
  - reflexivity.
  - vm_compute. reflexivity.
Defined.

(** ** What an HTTP provider takes for a reply *)

#[local] Opaque record_exchange.

Lemma http_send_cases cfg message field io s st :
  HTTP.send_message cfg message field io (s, st) =
  if negb (truthy (api_endpoint cfg))
  then (Raise (Exn RuntimeError "API endpoint not configured"), (s, st))
  else if (0 <? timeout cfg) && (timeout cfg <? http_latency io)
  then (Raise (Exn AsyncioTimeoutError ""), (s, advance st))
  else
    match http_result io with
    | Raise e => (Raise e, (s, advance st))
    | Ok reply =>
        if bool_decide (reply_status reply = 200) then
          match reply_text reply with
          | Raise e => (Raise e, (s, advance st))
          | Ok o =>
              match field o with
              | Raise e => (Raise e, (s, advance st))
              | Ok text =>
                  (Ok text, snd (record_exchange message text (s, advance st)))
              end
          end
        else
          match reply_raw reply with
          | Raise e => (Raise e, (s, advance st))
          | Ok body =>
              (Raise (Exn RuntimeError
                        ("HTTP " +:+ pretty (reply_status reply) +:+ ": " +:+ body)),
               (s, advance st))
          end
    end.
Proof.
  unfold HTTP.send_message, client_timeout.
  unfold mbind, M_bind, mret, M_ret, raise, lift, try_except, on_state, io_wait.
  destruct (negb _); [done|].
  destruct (_ && _); simpl; [done|].
  destruct (http_result io) as [reply|]; simpl; [|done].
  case_bool_decide.
  - destruct (reply_text reply) as [o|]; simpl; [|done].
    destruct (field o) as [text|]; simpl; [|done].
    destruct (record_exchange_spec message text s (advance st))
      as (? & ? & ? & ? & -> & _). done.
  - destruct (reply_raw reply); done.
Qed.

(** An HTTP provider takes only status 200 for a reply.  When its
    [send_message] returns, the endpoint is configured, the request was
    answered with status 200 and the reply is the text read from the body;
    and a request answered within the timeout with any other status, 201
    or 204 as much as 404 or 500, raises a [RuntimeError] that carries the
    status and the body, and leaves the session as it was. *)
Theorem http_send_needs_status_200 (p : AIProvider) (message : string)
    (env : send_env) (s : AISession) (st : State) :
  is_cli (cls p) = false →
  (∀ reply s' st',
     provider_send_message p message env (s, st) = (Ok reply, (s', st')) →
     truthy (api_endpoint (config p)) = true ∧
     ∃ rep, http_result (http env) = Ok rep ∧ reply_status rep = 200) ∧
  (∀ rep body,
     truthy (api_endpoint (config p)) = true →
     http_latency (http env) ≤ timeout (config p) →
     http_result (http env) = Ok rep → reply_status rep ≠ 200 →
     reply_raw rep = Ok body →
     provider_send_message p message env (s, st)
     = (Raise (Exn RuntimeError
                 ("HTTP " +:+ pretty (reply_status rep) +:+ ": " +:+ body)),
        (s, advance st))).
Proof.
  intros Hc.
  assert (Hsend : ∃ field, provider_send_message p message env (s, st)
            = HTTP.send_message (config p) message field (http env) (s, st)).
  { unfold provider_send_message. destruct (cls p); try done; eauto. }
  destruct Hsend as [field ->]. rewrite http_send_cases. split.
  - intros reply s' st'.
    destruct (truthy (api_endpoint (config p))); simpl; [|intros; simplify_eq].
    destruct (_ && _); [intros; simplify_eq|].
    destruct (http_result (http env)) as [rep|]; [|intros; simplify_eq].
    case_bool_decide.
    + intros _. split; [done|]. by exists rep.
    + destruct (reply_raw rep); intros; simplify_eq.
  - intros rep body He Hlat -> Hst ->. rewrite He. simpl.
    replace (timeout (config p) <? http_latency (http env)) with false
      by (symmetry; apply Z.ltb_ge; lia).
    rewrite andb_false_r. by rewrite bool_decide_eq_false_2.
Qed.

Lemma http_send_needs_status_200_witness :
  let env := {| cli := cli silent_send;
                http := {| http_latency := 1;
                           http_result := Ok {| reply_status := 204;
                                                reply_text := Ok None;
                                                reply_raw := Ok "" |} |} |} in
  provider_send_message (mkAIProvider OllamaProvider ollama_config) "hi" env
    (stopped_session, fresh_state)
  = (Raise (Exn RuntimeError "HTTP 204: "), (stopped_session, advance fresh_state)).
Proof.
  intros env.
  apply (proj2 (http_send_needs_status_200
                  (mkAIProvider OllamaProvider ollama_config) "hi" env
                  stopped_session fresh_state eq_refl)
           {| reply_status := 204; reply_text := Ok None; reply_raw := Ok "" |} "").
  - reflexivity.
  - simpl. lia.
  - reflexivity.
  - discriminate.
  - reflexivity.
Defined.

(** A 200 reply whose body lacks the field the provider reads: the Ollama
    provider takes it for an empty reply, returns the empty string and
    appends the user turn and an empty assistant turn; the
    OpenAI-compatible provider raises and leaves the session and its log
    as they were. *)
Theorem reply_without_text (cfg : ProviderConfig) (message : string)
    (io : http_round) (rep : http_reply) (s : AISession) (st : State) :
  truthy (api_endpoint cfg) = true → http_latency io ≤ timeout cfg →
  http_result io = Ok rep → reply_status rep = 200 → reply_text rep = Ok None →
  (∃ s' st' tu ta,
     Ollama.send_message cfg message io (s, st) = (Ok "", (s', st')) ∧
     history s' st' = history s st ++ [mkEntry "user" message tu;
                                       mkEntry "assistant" "" ta]) ∧
  (∃ e, OpenAICompatible.send_message cfg message io (s, st)
        = (Raise e, (s, advance st)) ∧ kind e = KeyError).
Proof.
  intros He Hlat Hres Hst Htxt.
  unfold Ollama.send_message, OpenAICompatible.send_message.
  rewrite !http_send_cases, He, Hres, Htxt. simpl.
  replace (timeout cfg <? http_latency io) with false
    by (symmetry; apply Z.ltb_ge; lia).
  rewrite andb_false_r, (bool_decide_eq_true_2 _ Hst). simpl. split.
  - destruct (record_exchange_spec message "" s (advance st))
      as (t1 & tu & ta & st2 & Hre & _ & _ & _ & _ & _ & _ & Hl).
    rewrite Hre. simpl. exists (set_last_activity t1 s), st2, tu, ta.
    split; [done|]. unfold history, list_read in *. simpl.
    by rewrite Hl, lookup_insert_eq.
  - by eexists.
Qed.

Lemma reply_without_text_witness :
  let io := {| http_latency := 1;
               http_result := Ok {| reply_status := 200; reply_text := Ok None;
                                    reply_raw := Ok "{}" |} |} in
  ∃ e, OpenAICompatible.send_message qwen_config "hi" io
         (stopped_session, fresh_state)
       = (Raise e, (stopped_session, advance fresh_state)) ∧ kind e = KeyError.
Proof.
  intros io.
  apply (reply_without_text qwen_config "hi" io
           {| reply_status := 200; reply_text := Ok None; reply_raw := Ok "{}" |}
           stopped_session fresh_state).
  - reflexivity.
  - simpl. lia.
  - reflexivity.
  - reflexivity.
  - reflexivity.
Defined.

#[local] Transparent record_exchange.

(** ** A session whose process was never spawned *)

(** A registered session of a subprocess provider that holds no process
    (its spawn failed) can be neither used nor removed: every
    [send_message] to it raises "Session is not active", every
    [stop_session] on it returns false, and both leave the registry and the
    logs as they were, so the entry stays for good. *)
Theorem session_without_process_is_stuck (sid : string) (s : AISession)
    (p : AIProvider) (st : State) :
  sessions st !! sid = Some s →
  providers st !! name (provider_config s) = Some p →
  is_cli (cls p) = true → process s = None →
  (∀ message env, ∃ st',
     Orchestrator.send_message sid message env st = (Raise SessionNotActive, st') ∧
     sessions st' = sessions st ∧ lists st' = lists st) ∧
  (∀ rel, ∃ st',
     Orchestrator.stop_session sid rel st = (Ok false, st') ∧
     sessions st' = sessions st ∧ lists st' = lists st).
Proof.
  intros Hs Hp Hc Hproc. split.
  - intros message env.
    destruct (Orchestrator.send_message sid message env st) as [r st'] eqn:H.
    pose proof H as Hinv. apply send_message_inv in Hinv.
    rewrite Hs, Hp in Hinv. destruct Hinv as (s' & st1 & Hsend & ->).
    assert (Hr : provider_send_message p message env (s, st)
                 = (Raise SessionNotActive, (s, st))).
    { unfold provider_send_message.
      destruct (cls p); try done;
        unfold GeminiCLI.send_message, GitHubCopilot.send_message,
          CLI.send_message, mbind, M_bind, get_session, raise;
        by rewrite Hproc. }
    rewrite Hr in Hsend. simplify_eq. eexists. split; [done|]. simpl.
    split; [by apply insert_id|done].
  - intros rel.
    destruct (stop_session_spec sid rel st s p Hs Hp)
      as (b & st' & Hstop & Hb & Hss & _ & Hl).
    rewrite Hc, Hproc in Hb. simpl in Hb. subst b.
    by exists st'.
Qed.

Lemma session_without_process_is_stuck_witness :
  let sid := "00000000-0000-4000-8000-000000000001" in
  let st := set_sessions {[ sid := error_session ]} fresh_state in
  ∃ st', Orchestrator.stop_session sid good_stop st = (Ok false, st') ∧
    sessions st' = sessions st ∧ lists st' = lists st.
Proof.
  intros sid st.
  apply (proj2 (session_without_process_is_stuck sid error_session
                  (mkAIProvider GeminiCLIProvider gemini_config) st
                  eq_refl eq_refl eq_refl eq_refl)).
Defined.

(** ** What the listings report *)

Lemma list_sessions_elem r st :
  r ∈ list_sessions st ↔
  ∃ sid s, sessions st !! sid = Some s ∧
    r = {| info_session_id := sid;
           info_provider := name (provider_config s);
           info_status := SessionStatus_value (status s);
           info_created_at := created_at s;
           info_last_activity := last_activity s;
           info_conversation_length := length (history s st) |}.
Proof.
  unfold list_sessions. rewrite list_elem_of_fmap. split.
  - intros ([sid s] & -> & Hin). apply elem_of_map_to_list in Hin. eauto.
  - intros (sid & s & Hs & ->). exists (sid, s). split; [done|].
    by apply elem_of_map_to_list.
Qed.

(** [list_sessions] after a message was served: the session has one record
    before and one record after the call, the only one under its
    identifier; the record after shows two entries more in
    [conversation_length] and the same provider, status and creation time;
    and the listing has as many records as before, one per registered
    session. *)
Theorem list_sessions_counts_turns (sid message : string) (env : send_env)
    (st : State) (s : AISession) (reply : string) (st' : State) :
  sessions st !! sid = Some s →
  Orchestrator.send_message sid message env st = (Ok reply, st') →
  ∃ r r',
    r ∈ list_sessions st ∧ r' ∈ list_sessions st' ∧
    info_session_id r = sid ∧ info_session_id r' = sid ∧
    (∀ r2, r2 ∈ list_sessions st' → info_session_id r2 = sid → r2 = r') ∧
    info_conversation_length r' = (info_conversation_length r + 2)%nat ∧
    info_provider r' = info_provider r ∧ info_status r' = info_status r ∧
    info_created_at r' = info_created_at r ∧
    length (list_sessions st') = length (list_sessions st) ∧
    length (list_sessions st) = size (sessions st).
Proof.
  intros Hs H. apply send_message_inv in H. rewrite Hs in H.
  destruct (providers st !! name (provider_config s)) as [p|];
    [|by destruct H].
  destruct H as (s' & st1 & Hp & ->).
  apply provider_send_inv in Hp as (_ & Hss & _ & st0 & _ & Hl0 & Hre).
  destruct (record_exchange_spec message reply s st0)
    as (t1 & tu & ta & st2 & Hre' & _ & _ & _ & _ & _ & _ & Hl).
  rewrite Hre in Hre'. simplify_eq.
  set (st' := set_sessions (<[sid := set_last_activity t1 s]> (sessions st2)) st2).
  assert (Hs' : sessions st' !! sid = Some (set_last_activity t1 s))
    by (simpl; apply lookup_insert_eq).
  assert (Hlen : length (history (set_last_activity t1 s) st')
                 = (length (history s st) + 2)%nat).
  { unfold history, list_read. simpl. rewrite Hl, lookup_insert_eq. simpl.
    unfold history, list_read. rewrite Hl0, length_app. done. }
  eexists _, _. split; [apply list_sessions_elem; eauto|].
  split; [apply list_sessions_elem; eauto|]. simpl.
  split; [done|]. split; [done|]. split.
  { intros r2 (sid2 & s2 & Hs2 & ->)%list_sessions_elem Hid. simpl in Hid.
    subst sid2. rewrite Hs' in Hs2. by simplify_eq. }
  split; [done|]. do 3 (split; [done|]).
  unfold list_sessions. rewrite !length_fmap, !length_map_to_list. simpl.
  split; [|done]. rewrite Hss.
  rewrite <- (insert_id (sessions st) sid s Hs) at 2.
  rewrite <- (insert_delete_eq (sessions st) sid (set_last_activity t1 s)).
  rewrite <- (insert_delete_eq (sessions st) sid s).
  by rewrite !map_size_insert_None by apply lookup_delete_eq.
Qed.

Lemma list_sessions_counts_turns_witness :
  let sid := "00000000-0000-4000-8000-000000000005" in
  ∃ r r',
    r ∈ list_sessions chat_state ∧
    r' ∈ list_sessions
           (snd (Orchestrator.send_message sid "again" (good_send "sure") chat_state)) ∧
    info_conversation_length r = 2%nat ∧ info_conversation_length r' = 4%nat.
Proof.
  intros sid.
  destruct (list_sessions_counts_turns sid "again" (good_send "sure") chat_state
              active_session "sure"
              (snd (Orchestrator.send_message sid "again" (good_send "sure")
                      chat_state)) eq_refl eq_refl)
    as (r & r' & Hr & Hr' & Hid & _ & _ & Hlen & _).
  exists r, r'. split; [done|]. split; [done|].
  apply list_sessions_elem in Hr as (sid2 & s2 & Hs2 & ->). simpl in *.
  subst sid2. vm_compute in Hs2. simplify_eq. rewrite Hlen. by vm_compute.
Defined.

Lemma provider_start_raises_runtime_error p env st e st' :
  provider_start_session p env st = (Raise e, st') → kind e = RuntimeError.
Proof.
  intros H. pose proof (provider_start_spec _ _ _ _ _ H) as (_ & _ & _ & _ & Hc).
  simpl in Hc. revert H. unfold provider_start_session.
  destruct (cls p); try done.
  - unfold Ollama.start_session, AISession_new, list_new. munfold. simpl.
    match goal with |- context [Ollama._check_model ?c ?g ?s] =>
      destruct (check_model_total c g s) as ([] & st1 & ->) end;
      simpl; intros; by simplify_eq.
  - unfold OpenAICompatible.start_session, OpenAICompatible._check_connectivity,
      AISession_new, list_new. munfold. simpl.
    destruct (negb _); simpl; [intros; by simplify_eq|].
    destruct (models_get env) as [|code []]; simpl; [intros; by simplify_eq|].
    case_bool_decide; simpl; intros; by simplify_eq.
Qed.

(** [list_providers] gives the names [start_session] knows: for a name it
    does not list, [start_session] raises "Provider not found" and changes
    nothing; for a name it lists, [start_session] never raises that error
    (when it raises, the error is a [RuntimeError]: the provider is not
    available, or its start failed). *)
Theorem start_session_knows_listed_providers (n : string) (pr : probe)
    (env : start_env) (st : State) :
  (n ∉ list_providers st →
   Orchestrator.start_session n pr env st = (Raise (UnknownProvider n), st)) ∧
  (n ∈ list_providers st →
   ∀ e st', Orchestrator.start_session n pr env st = (Raise e, st') →
     kind e = RuntimeError ∧ e ≠ UnknownProvider n).
Proof.
  assert (Hin : n ∈ list_providers st ↔ is_Some (providers st !! n)).
  { unfold list_providers. rewrite list_elem_of_fmap. split.
    - intros ([k p] & -> & Hp). apply elem_of_map_to_list in Hp. by eexists.
    - intros [p Hp]. exists (n, p). split; [done|].
      by apply elem_of_map_to_list. }
  split.
  - intros Hn. destruct (providers st !! n) as [p|] eqn:Hp.
    + exfalso. apply Hn, Hin. by eexists.
    + unfold Orchestrator.start_session, Orchestrator.get_provider.
      unfold mbind, M_bind. by rewrite Hp.
  - intros [p Hp]%Hin e st' H.
    assert (Hk : kind e = RuntimeError); [|split; [done|by intros ->]].
    apply start_session_inv in H. rewrite Hp in H.
    destruct (provider_is_available p pr); [|by destruct H as [? _]; simplify_eq].
    destruct H as ([s|e1] & st1 & Hstart & Hr); destruct Hr as [? _]; simplify_eq.
    by apply provider_start_raises_runtime_error in Hstart.
Qed.
